(** * Peer discovery and address relay of the full node (src/server/node_discovery.py)

    A shallow embedding of [FullNodeDiscovery] and [FullNodePeers].  The
    coroutines of the source talk to collaborators that live outside the
    file (the address manager, its store, the connection registry, the
    server, the clock and the random generator).  Every such call is an
    interaction with a scripted environment: the call is appended to a trace
    and its answer is read from an oracle at the current interaction count.
    The fields of [self] that the coroutines mutate live in the state of a
    small state-and-exception monad, so that a mutation made before an
    exception is raised is still there when the exception is caught. *)

From Stdlib Require Import ZArith QArith Qround Qabs Qpower Lia Lqa.
From stdpp Require Import gmap strings list sorting.

Open Scope Z_scope.

(** ** Numbers *)

(** [time.time()] returns a float; a float is read as the rational it denotes. *)
Definition Qltb (a b : Q) : bool := negb (Qle_bool b a).

(** Python's [int(x)] on a float: truncation towards zero. *)
Definition int_of_float (x : Q) : Z := Z.quot (Qnum x) (Zpos (Qden x)).

(** Python's floats are binary64 numbers, and a product or a sum of floats
    is the exact result rounded to the nearest of them.  Sums and
    differences of a clock reading and a whole number of seconds are exact at
    the values a clock shows and are written without rounding; the products
    of the feeler schedule are not, and go through [binary64].  The range of
    the exponent is not bounded here: there is no overflow to infinity and no
    gradual underflow. *)

(** [floor(log2 x)] for a positive rational. *)
Definition ilog2 (x : Q) : Z :=
  let k := Z.log2 (Qnum x) - Z.log2 (Zpos (Qden x)) in
  if Qle_bool (2 ^ k) x then k else k - 1.

(** The integer nearest to [x], the even one of two that are equally near. *)
Definition round_half_even (x : Q) : Z :=
  let f := Qfloor x in
  match (x - inject_Z f ?= 1 # 2)%Q with
  | Lt => f
  | Gt => f + 1
  | Eq => if Z.even f then f else f + 1
  end.

(** The binary64 number nearest to [x]: 53 significant bits, ties to even. *)
Definition binary64 (x : Q) : Q :=
  if Qeq_bool x 0 then 0%Q
  else
    let ulp := (2 ^ (ilog2 (Qabs x) - 52))%Q in
    Qred (inject_Z (round_half_even (x / ulp)) * ulp).

(** Half the distance between 1 and the next binary64 number: 2^-53. *)
Definition eps64 : Q := (1 # 9007199254740992)%Q.

(** [t * 1000 * 1000] on floats: a clock reading in microseconds. *)
Definition microseconds (t : Q) : Q :=
  binary64 (binary64 (t * inject_Z 1000) * inject_Z 1000).

(** ** Data of the protocol *)

Record PeerInfo := mkPeerInfo { host : string; port : Z }.

Record TimestampedPeerInfo := mkTimestampedPeerInfo {
  tp_host : string;
  tp_port : Z;
  timestamp : Z
}.

(** The two fields of [ExtendedPeerInfo] that the discovery loop reads. *)
Record ExtendedPeerInfo := mkExtendedPeerInfo {
  peer_info : PeerInfo;
  last_try : Z
}.

Inductive NodeType := FULL_NODE | WALLET | INTRODUCER | FARMER | HARVESTER | TIMELORD.

Inductive Delivery := RESPOND | BROADCAST | SPECIFIC.

Inductive MessageData :=
| RequestPeers
| RespondPeers (peer_list : list TimestampedPeerInfo).

Record Message := mkMessage { function : string; data : MessageData }.

Record OutboundMessage := mkOutboundMessage {
  peer_type : NodeType;
  message : Message;
  delivery_method : Delivery;
  specific_peer_node_id : option Z
}.

Record Connection := mkConnection {
  conn_peer_info : PeerInfo;
  node_id : option Z;
  connection_type : NodeType
}.

#[global] Instance PeerInfo_eq_dec : EqDecision PeerInfo.
Proof. solve_decision. Defined.

#[global] Instance TimestampedPeerInfo_eq_dec : EqDecision TimestampedPeerInfo.
Proof. solve_decision. Defined.

#[global] Instance NodeType_eq_dec : EqDecision NodeType.
Proof. solve_decision. Defined.

(** The address manager and its store are outside this file.  A manager is
    known here by where it came from: built afresh by [AddressManager()], or
    read back from the snapshot in the store. *)
Inductive AddressManager :=
| AddressManager_new
| AddressManager_restored (snapshot : nat).

Inductive Task := ConnectPeersTask | ProcessMessagesTask | SerializeTask
                | SelfAdvertiseTask | AddressRelayTask.

(** ** Interactions *)

Inductive Lock := ManagerLock | PeersLock.

Inductive Event :=
| EvMarkGood (p : PeerInfo) (test_before_evict : bool)
| EvConnect (p : PeerInfo)
| EvAttempt (p : PeerInfo) (count_failure : bool)
| EvAddToNewTable (peers : list TimestampedPeerInfo) (source : option PeerInfo) (penalty : Z)
| EvResolveTriedCollisions
| EvSelectTriedCollision
| EvSelectPeer (new_only : bool)
| EvSize
| EvGetPeers
| EvTime (reading : Q)
| EvRandom
| EvSleep (seconds : Z)
| EvGetOutboundConnections
| EvGetFullNodeConnections
| EvGetConnections
| EvGetFullNodePeerinfos
| EvGetLocalPeerinfo
| EvCountOutboundConnections
| EvStartClient (target : PeerInfo) (on_connect_request_peers : bool)
                (disconnect_after_handshake : option bool)
| EvPushMessage (m : OutboundMessage)
| EvCloseConnection (c : Connection)
| EvLogError (text : string)
| EvMkdir
| EvDbConnect
| EvDbClose
| EvStoreCreate
| EvStoreIsEmpty
| EvStoreClear
| EvStoreDeserialize
| EvStoreSerialize (am : option AddressManager)
| EvLockAcquire (l : Lock)
| EvLockRelease (l : Lock)
| EvSetClosed
| EvCancel (t : Task).

(** The scripted environment.  Every field is indexed by the number of
    interactions made so far. *)
Record Env := mkEnv {
  env_fail : nat -> option string;     (* the call raises this exception *)
  env_closed : nat -> bool;            (* [self.is_closed] as seen then *)
  env_time : nat -> Q;                 (* time.time() *)
  env_random : nat -> Z;               (* raw output of the generator *)
  env_size : nat -> Z;
  env_select_tried_collision : nat -> option ExtendedPeerInfo;
  env_select_peer : nat -> option ExtendedPeerInfo;
  env_get_peers : nat -> list TimestampedPeerInfo;
  env_outbound_connections : nat -> list Connection;
  env_full_node_connections : nat -> list Connection;
  env_connections : nat -> list Connection;
  env_full_node_peerinfos : nat -> list PeerInfo;
  env_local_peerinfo : nat -> option PeerInfo;
  env_count_outbound : nat -> Z;
  env_store_is_empty : nat -> bool;
  env_store_snapshot : nat -> nat
}.

(** The mutable part of [self], with the interaction count and the trace.
    [connection_time_pretest] is a local of [_process_messages] that lives
    as long as its loop. *)
Record St := mkSt {
  tick : nat;
  trace : list Event;
  address_manager : option AddressManager;
  relay_queue : option (list (TimestampedPeerInfo * Z));
  neighbour_known_peers : gmap (string * Z) (gset string);
  connection_time_pretest : gmap string Q
}.

(** The fields of [self] that are set once by [__init__]. *)
Record Config := mkConfig {
  target_outbound_count : Z;
  introducer_info : PeerInfo;
  peer_connect_interval : Z;
  key : Z
}.

Inductive Res (A : Type) :=
| Ok (a : A)
| Raise (e : string).
Arguments Ok {A} a.
Arguments Raise {A} e.

Definition M (A : Type) : Type := Env -> St -> St * Res A.

Definition ret {A} (a : A) : M A := fun _ st => (st, Ok a).

Definition bind {A B} (m : M A) (k : A -> M B) : M B :=
  fun env st =>
    match m env st with
    | (st', Ok a) => k a env st'
    | (st', Raise e) => (st', Raise e)
    end.

Definition raise {A} (e : string) : M A := fun _ st => (st, Raise e).

(** [try: body except Exception as e: handler e]. *)
Definition try_except {A} (body : M A) (handler : string -> M A) : M A :=
  fun env st =>
    match body env st with
    | (st', Ok a) => (st', Ok a)
    | (st', Raise e) => handler e env st'
    end.

#[global] Instance M_ret : MRet M := @ret.
#[global] Instance M_bind : MBind M := fun A B k m => bind m k.

Definition record (ev : Event) (st : St) : St :=
  mkSt (S (tick st)) (trace st ++ [ev]) (address_manager st) (relay_queue st)
       (neighbour_known_peers st) (connection_time_pretest st).

(** A call that cannot raise: its answer is read at the current count. *)
Definition ask {A} (ev : Event) (answer : Env -> nat -> A) : M A :=
  fun env st => (record ev st, Ok (answer env (tick st))).

(** A call to a collaborator: it may raise instead of answering. *)
Definition call {A} (ev : Event) (answer : Env -> nat -> A) : M A :=
  fun env st =>
    match env_fail env (tick st) with
    | Some e => (record ev st, Raise e)
    | None => (record ev st, Ok (answer env (tick st)))
    end.

Definition call_ (ev : Event) : M unit := call ev (fun _ _ => tt).

Definition tell (ev : Event) : M unit := ask ev (fun _ _ => tt).

Definition get {A} (f : St -> A) : M A := fun _ st => (st, Ok (f st)).

Definition modify (f : St -> St) : M unit := fun _ st => (f st, Ok tt).

Definition time_time : M Q :=
  fun env st => (record (EvTime (env_time env (tick st))) st, Ok (env_time env (tick st))).

Definition asyncio_sleep (seconds : Z) : M unit := tell (EvSleep seconds).

Definition log_error (text : string) : M unit := tell (EvLogError text).

Definition is_closed : M bool := fun env st => (st, Ok (env_closed env (tick st))).

(** [random.randrange(n)] and [random.randint(a, b)]. *)
Definition randrange (n : Z) : M Z := ask EvRandom (fun env t => env_random env t mod n).

Definition randint (a b : Z) : M Z :=
  ask EvRandom (fun env t => a + env_random env t mod (b - a + 1)).

(** [async with lock: body]: the lock is released on the way out, also when
    the body raises. *)
Definition with_lock {A} (l : Lock) (body : M A) : M A :=
  fun env st =>
    match body env (record (EvLockAcquire l) st) with
    | (st', r) => (record (EvLockRelease l) st', r)
    end.

(** How a loop of a task ends within the iterations that are observed. *)
Inductive LoopEnd := Stopped | StillRunning.

(** [while not self.is_closed: body], observed for [fuel] iterations. *)
Fixpoint while_not_closed {V} (fuel : nat) (body : V -> M V) (vars : V) : M (LoopEnd * V) :=
  match fuel with
  | O => ret (StillRunning, vars)
  | S fuel' =>
      closed ← is_closed;
      if (closed : bool) then ret (Stopped, vars)
      else vars' ← body vars; while_not_closed fuel' body vars'
  end.

(** The same loop when each iteration starts by taking an item from a queue
    that other tasks fill: [items] is what the queue delivers. *)
Fixpoint while_not_closed_get {I} (items : list I) (body : I -> M unit) : M LoopEnd :=
  match items with
  | [] => ret StillRunning
  | item :: rest =>
      closed ← is_closed;
      if (closed : bool) then ret Stopped
      else body item;; while_not_closed_get rest body
  end.

(** Declarations of the repository that this file imports but that are not
    part of it. *)
Class Externals := {
  (** [src.util.ints.uint64]: an [int] subclass, so a value in range is itself. *)
  uint64 : Z -> Z;
  uint64_in_range : forall z, 0 <= z < 2 ^ 64 -> uint64 z = z;
  (** [PeerInfo.get_group] and [PeerInfo.get_key]. *)
  get_group : PeerInfo -> list Z;
  get_key : PeerInfo -> list Z;
  (** [src.util.hash.std_hash] on byte strings. *)
  std_hash : list Z -> list Z;
  (** [math.log]. *)
  math_log : Q -> Q
}.

Section Discovery.
Context `{Ext : Externals}.
Variable self : Config.

(** ** [FullNodeDiscovery.initialize_address_manager] *)

Definition set_address_manager (am : AddressManager) (st : St) : St :=
  mkSt (tick st) (trace st) (Some am) (relay_queue st)
       (neighbour_known_peers st) (connection_time_pretest st).

Definition initialize_address_manager : M unit :=
  call_ EvMkdir;;
  call_ EvDbConnect;;
  call_ EvStoreCreate;;
  empty ← call EvStoreIsEmpty env_store_is_empty;
  if negb empty then
    snapshot ← call EvStoreDeserialize env_store_snapshot;
    modify (set_address_manager (AddressManager_restored snapshot))
  else
    call_ EvStoreClear;;
    modify (set_address_manager AddressManager_new).

(** ** [FullNodeDiscovery._close_common] *)

Definition _close_common : M unit :=
  tell EvSetClosed;;
  tell (EvCancel ConnectPeersTask);;
  tell (EvCancel ProcessMessagesTask);;
  tell (EvCancel SerializeTask);;
  call_ EvDbClose.

(** ** [FullNodeDiscovery._periodically_serialize] *)

Definition serialize_once (_ : unit) : M unit :=
  serialize_interval ← randint (15 * 60) (30 * 60);
  asyncio_sleep serialize_interval;;
  with_lock ManagerLock
    (am ← get address_manager; call_ (EvStoreSerialize am)).

Definition _periodically_serialize (fuel : nat) : M (LoopEnd * unit) :=
  while_not_closed fuel serialize_once tt.

(** ** [FullNodeDiscovery._respond_peers_common] *)

Definition adjust_timestamp (is_full_node : bool) (peer : TimestampedPeerInfo)
  : M TimestampedPeerInfo :=
  current_peer ←
    (if timestamp peer <? 100000000 then
       now ← time_time;
       ret (mkTimestampedPeerInfo (tp_host peer) (tp_port peer)
              (uint64 (int_of_float (now - inject_Z (5 * 24 * 60 * 60))%Q)))
     else
       now ← time_time;
       if Qltb (now + inject_Z (10 * 60))%Q (inject_Z (timestamp peer)) then
         now' ← time_time;
         ret (mkTimestampedPeerInfo (tp_host peer) (tp_port peer)
                (uint64 (int_of_float (now' - inject_Z (5 * 24 * 60 * 60))%Q)))
       else ret peer);
  if negb is_full_node then
    ret (mkTimestampedPeerInfo (tp_host peer) (tp_port peer) (uint64 0))
  else ret current_peer.

Fixpoint adjust_timestamps (is_full_node : bool) (peer_list : list TimestampedPeerInfo)
  : M (list TimestampedPeerInfo) :=
  match peer_list with
  | [] => ret []
  | peer :: rest =>
      current_peer ← adjust_timestamp is_full_node peer;
      others ← adjust_timestamps is_full_node rest;
      ret (current_peer :: others)
  end.

Definition _respond_peers_common (peer_list : list TimestampedPeerInfo)
    (peer_src : PeerInfo) (is_full_node : bool) : M unit :=
  peers_adjusted_timestamp ← adjust_timestamps is_full_node peer_list;
  if is_full_node then
    call_ (EvAddToNewTable peers_adjusted_timestamp (Some peer_src) (2 * 60 * 60))
  else
    call_ (EvAddToNewTable peers_adjusted_timestamp None 0).

(** ** [FullNodeDiscovery._process_messages] *)

Definition set_pretest (h : string) (t : Q) (st : St) : St :=
  mkSt (tick st) (trace st) (address_manager st) (relay_queue st)
       (neighbour_known_peers st) (<[h := t]> (connection_time_pretest st)).

(** [if self.relay_queue is not None: self.relay_queue.put_nowait(item)]. *)
Definition relay_queue_put (item : TimestampedPeerInfo * Z) (st : St) : St :=
  mkSt (tick st) (trace st) (address_manager st)
       (match relay_queue st with
        | Some queue => Some (queue ++ [item])
        | None => None
        end)
       (neighbour_known_peers st) (connection_time_pretest st).

Definition update_connection_time (peer_info : PeerInfo) : M unit :=
  pretest ← get connection_time_pretest;
  match pretest !! host peer_info with
  | None => now ← time_time; modify (set_pretest (host peer_info) now)
  | Some _ => ret tt
  end;;
  now ← time_time;
  pretest ← get connection_time_pretest;
  match pretest !! host peer_info with
  | None => raise "KeyError"
  | Some recorded =>
      if Qltb (inject_Z 60) (now - recorded)%Q then
        call_ (EvConnect peer_info);;
        now' ← time_time;
        modify (set_pretest (host peer_info) now')
      else ret tt
  end.

Definition new_inbound_connection (peer_info : PeerInfo) : M unit :=
  now ← time_time;
  let timestamped_peer_info :=
    mkTimestampedPeerInfo (host peer_info) (port peer_info) (uint64 (int_of_float now)) in
  call_ (EvAddToNewTable [timestamped_peer_info] (Some peer_info) 0);;
  call_ (EvMarkGood peer_info true);;
  modify (relay_queue_put (timestamped_peer_info, 1)).

Definition process_message (item : string * option PeerInfo) : M unit :=
  match snd item with
  | None => ret tt
  | Some peer_info =>
      if port peer_info =? 0 then ret tt
      else if String.eqb (fst item) "make_tried" then
        call_ (EvMarkGood peer_info true);;
        call_ (EvConnect peer_info)
      else if String.eqb (fst item) "mark_attempted" then
        call_ (EvAttempt peer_info true)
      else if String.eqb (fst item) "mark_attempted_soft" then
        call_ (EvAttempt peer_info false)
      else if String.eqb (fst item) "update_connection_time" then
        update_connection_time peer_info
      else if String.eqb (fst item) "new_inbound_connection" then
        new_inbound_connection peer_info
      else ret tt
  end.

Definition process_message_guarded (item : string * option PeerInfo) : M unit :=
  try_except (process_message item)
    (fun e => log_error ("Exception in process message: " ++ e)).

Definition _process_messages (items : list (string * option PeerInfo)) : M LoopEnd :=
  while_not_closed_get items process_message_guarded.

(** ** [FullNodeDiscovery._num_needed_peers] *)

Definition _num_needed_peers : M Z :=
  outbound ← call EvCountOutboundConnections env_count_outbound;
  let diff := target_outbound_count self - outbound in
  ret (if 0 <=? diff then diff else 0).

(** ** [FullNodeDiscovery._poisson_next_send] *)

(** The literal [-0.0000000000000035527136788], as the float it is read as. *)
Definition poisson_scale : Q :=
  binary64 (-35527136788 # 10000000000000000000000000)%Q.

(** The argument of [math.log] for the draw [r]. *)
Definition poisson_uniform (r : Z) : Q :=
  binary64 (binary64 (inject_Z r * poisson_scale) + 1).

Definition _poisson_next_send (now avg_interval_seconds : Q) : M Q :=
  r ← randrange (2 ^ 48);
  ret (binary64
         (now + binary64
                  (binary64 (binary64 (math_log (poisson_uniform r) * avg_interval_seconds)
                             * inject_Z (-1000000))
                   + (1 # 2)))).

(** ** [FullNodeDiscovery._introducer_client] *)

Fixpoint close_introducers (connections : list Connection) : M unit :=
  match connections with
  | [] => ret tt
  | connection :: rest =>
      (if bool_decide (connection_type connection = INTRODUCER)
       then call_ (EvCloseConnection connection) else ret tt);;
      close_introducers rest
  end.

Definition _introducer_client : M unit :=
  call_ (EvStartClient (introducer_info self) true None);;
  connections ← call EvGetConnections env_connections;
  close_introducers connections.

(** ** [FullNodeDiscovery._connect_to_peers] *)

Record ConnectVars := mkConnectVars {
  next_feeler : Q;
  empty_tables : bool;
  local_peerinfo : option PeerInfo;
  last_timestamp_local_info : Z
}.

(** The locals of one pass over the inner [while not got_peer] loop. *)
Record TryVars := mkTryVars {
  tries : Z;
  got_peer : bool;
  addr : option PeerInfo;
  has_collision : bool;
  tv_empty_tables : bool;
  tv_local_peerinfo : option PeerInfo;
  tv_last_timestamp_local_info : Z
}.

Inductive Control := Break | Continue.

Definition group_snapshot (conns : list Connection) : list (list Z) :=
  fold_left
    (fun groups conn =>
       let group := get_group (conn_peer_info conn) in
       if bool_decide (group ∈ groups) then groups else groups ++ [group])
    conns [].

Definition max_tries_for (groups : list (list Z)) : Z :=
  if Z.of_nat (length groups) <? 3 then 10
  else if Z.of_nat (length groups) <=? 5 then 25
  else 50.

(** Lines 184-191: is this iteration a feeler? *)
Definition feeler_decision (next_feeler0 : Q) : M (bool * Q) :=
  needed ← _num_needed_peers;
  if needed =? 0 then
    now ← time_time;
    if Qltb next_feeler0 (microseconds now) then
      now' ← time_time;
      next_feeler' ← _poisson_next_send (microseconds now') (inject_Z 240);
      ret (true, next_feeler')
    else ret (false, next_feeler0)
  else ret (false, next_feeler0).

Section PickPeer.
Variables (is_feeler : bool) (groups : list (list Z)) (connected : list PeerInfo)
          (now : Q) (max_tries : Z).

(** The checks made on a candidate, after [addr = info.peer_info]. *)
Definition consider (v : TryVars) (tries' : Z) (has_collision' : bool)
    (info : ExtendedPeerInfo) : M (Control * TryVars) :=
  let addr' := peer_info info in
  if negb is_feeler && bool_decide (get_group addr' ∈ groups) then
    ret (Continue, mkTryVars tries' false None has_collision' (tv_empty_tables v)
                     (tv_local_peerinfo v) (tv_last_timestamp_local_info v))
  else if bool_decide (addr' ∈ connected) then
    ret (Continue, mkTryVars tries' false None has_collision' (tv_empty_tables v)
                     (tv_local_peerinfo v) (tv_last_timestamp_local_info v))
  else if Qltb (now - inject_Z (last_try info))%Q (inject_Z 3600) && (tries' <? 30) then
    ret (Continue, mkTryVars tries' false (Some addr') has_collision' (tv_empty_tables v)
                     (tv_local_peerinfo v) (tv_last_timestamp_local_info v))
  else
    t ← time_time;
    refreshed ←
      (if Qltb (inject_Z 1800) (t - inject_Z (tv_last_timestamp_local_info v))%Q
          || bool_decide (tv_local_peerinfo v = None)
       then
         local ← call EvGetLocalPeerinfo env_local_peerinfo;
         t' ← time_time;
         ret (local, uint64 (int_of_float t'))
       else ret (tv_local_peerinfo v, tv_last_timestamp_local_info v));
    if bool_decide (fst refreshed = Some addr') then
      ret (Continue, mkTryVars tries' false (Some addr') has_collision' (tv_empty_tables v)
                       (fst refreshed) (snd refreshed))
    else
      ret (Continue, mkTryVars tries' true (Some addr') has_collision' (tv_empty_tables v)
                       (fst refreshed) (snd refreshed)).

(** One pass over the body of the inner loop. *)
Definition try_once (v : TryVars) : M (Control * TryVars) :=
  asyncio_sleep (Z.min (Z.min 15 (peer_connect_interval self))
                       (1 + Z.of_nat (length groups) * 3));;
  let tries' := tries v + 1 in
  if max_tries <? tries' then
    ret (Break, mkTryVars tries' false None (has_collision v) true
                  (tv_local_peerinfo v) (tv_last_timestamp_local_info v))
  else
    collision ← call EvSelectTriedCollision env_select_tried_collision;
    selected ←
      match collision with
      | None =>
          info ← call (EvSelectPeer is_feeler) env_select_peer;
          ret (info, has_collision v)
      | Some _ => ret (collision, true)
      end;
    match fst selected with
    | None =>
        ret (Break, mkTryVars tries' false (addr v) (snd selected)
                      (if negb is_feeler then true else tv_empty_tables v)
                      (tv_local_peerinfo v) (tv_last_timestamp_local_info v))
    | Some info => consider v tries' (snd selected) info
    end.

(** [while not got_peer and not self.is_closed].  The loop leaves within
    [max_tries + 1] passes; [None] stands for a run cut short by [fuel]. *)
Fixpoint pick_peer (fuel : nat) (v : TryVars) : M (option TryVars) :=
  match fuel with
  | O => ret None
  | S fuel' =>
      closed ← is_closed;
      if got_peer v || (closed : bool) then ret (Some v)
      else
        step ← try_once v;
        match fst step with
        | Break => ret (Some (snd step))
        | Continue => pick_peer fuel' (snd step)
        end
  end.

End PickPeer.

Definition connect_once (v : ConnectVars) : M ConnectVars :=
  size ← call EvSize env_size;
  if (size =? 0) || empty_tables v then
    _introducer_client;;
    asyncio_sleep (Z.min 10 (peer_connect_interval self));;
    ret (mkConnectVars (next_feeler v) false (local_peerinfo v)
                       (last_timestamp_local_info v))
  else
    connected ← call EvGetFullNodePeerinfos env_full_node_peerinfos;
    conns ← call EvGetOutboundConnections env_outbound_connections;
    let groups := group_snapshot conns in
    feeler ← feeler_decision (next_feeler v);
    let is_feeler := fst feeler in
    call_ EvResolveTriedCollisions;;
    now ← time_time;
    let max_tries := max_tries_for groups in
    picked ← pick_peer is_feeler groups connected now max_tries
               (S (Z.to_nat max_tries))
               (mkTryVars 0 false None false (empty_tables v) (local_peerinfo v)
                          (last_timestamp_local_info v));
    match picked with
    | None => raise "inner loop cut short"
    | Some tv =>
        needed ← _num_needed_peers;
        let disconnect_after_handshake := if needed =? 0 then true else is_feeler in
        let empty_tables' := if needed =? 0 then false else tv_empty_tables tv in
        needed' ← _num_needed_peers;
        let initiate_connection := (0 <? needed') || has_collision tv || is_feeler in
        match addr tv with
        | Some target =>
            if initiate_connection
            then tell (EvStartClient target false (Some disconnect_after_handshake))
            else ret tt
        | None => ret tt
        end;;
        asyncio_sleep (Z.min (5 + Z.of_nat (length groups) * 5)
                             (peer_connect_interval self));;
        ret (mkConnectVars (snd feeler) empty_tables' (tv_local_peerinfo tv)
                           (tv_last_timestamp_local_info tv))
    end.

Definition _connect_to_peers (fuel : nat) : M (LoopEnd * ConnectVars) :=
  now ← time_time;
  next_feeler0 ← _poisson_next_send (microseconds now) (inject_Z 240);
  local ← call EvGetLocalPeerinfo env_local_peerinfo;
  now' ← time_time;
  while_not_closed fuel connect_once
    (mkConnectVars next_feeler0 false local (uint64 (int_of_float now'))).

(** ** [FullNodePeers] *)

Definition set_known (known : gmap (string * Z) (gset string)) (st : St) : St :=
  mkSt (tick st) (trace st) (address_manager st) (relay_queue st)
       known (connection_time_pretest st).

(** [if pair not in known: known[pair] = set()]. *)
Definition ensure_neighbour (pair : string * Z)
    (known : gmap (string * Z) (gset string)) : gmap (string * Z) (gset string) :=
  match known !! pair with
  | None => <[pair := ∅]> known
  | Some _ => known
  end.

(** [known[pair].add(h)], for a [pair] that is a key of [known]. *)
Definition add_host (pair : string * Z) (h : string)
    (known : gmap (string * Z) (gset string)) : gmap (string * Z) (gset string) :=
  match known !! pair with
  | Some hosts => <[pair := hosts ∪ {[h]}]> known
  | None => known
  end.

(** [pair in known and h in known[pair]]. *)
Definition knows_host (pair : string * Z) (h : string)
    (known : gmap (string * Z) (gset string)) : bool :=
  match known !! pair with
  | Some hosts => bool_decide (h ∈ hosts)
  | None => false
  end.

Definition add_peers_neighbour (peers : list TimestampedPeerInfo)
    (neighbour_info : PeerInfo) : M unit :=
  let neighbour_data := (host neighbour_info, port neighbour_info) in
  with_lock PeersLock
    (modify (fun st =>
       set_known
         (fold_left
            (fun known peer =>
               let known' := ensure_neighbour neighbour_data known in
               if knows_host neighbour_data (tp_host peer) known' then known'
               else add_host neighbour_data (tp_host peer) known')
            peers (neighbour_known_peers st))
         st)).

Definition respond_peers_message (node : NodeType) (peers : list TimestampedPeerInfo)
    (delivery : Delivery) (target : option Z) : OutboundMessage :=
  mkOutboundMessage node (mkMessage "respond_peers_full_node" (RespondPeers peers))
                    delivery target.

(** [FullNodePeers.request_peers]: the list of the messages the generator
    yields when it is run to its end. *)
Definition request_peers (peer_info0 : PeerInfo) : M (list OutboundMessage) :=
  try_except
    (conns ← call EvGetOutboundConnections env_outbound_connections;
     let is_outbound :=
       existsb (fun conn => bool_decide (conn_peer_info conn = peer_info0)) conns in
     if is_outbound then ret []
     else
       peers ← call EvGetPeers env_get_peers;
       add_peers_neighbour peers peer_info0;;
       ret [respond_peers_message FULL_NODE peers RESPOND None;
            respond_peers_message WALLET peers RESPOND None])
    (fun e => log_error ("Request peers exception: " ++ e);; ret []).

Definition respond_peers (peer_list : list TimestampedPeerInfo) (peer_src : PeerInfo)
    (is_full_node : bool) : M unit :=
  _respond_peers_common peer_list peer_src is_full_node;;
  if is_full_node then
    add_peers_neighbour peer_list peer_src;;
    queue ← get relay_queue;
    match peer_list, queue with
    | [peer], Some _ =>
        now ← time_time;
        if Qltb (now - inject_Z (60 * 10))%Q (inject_Z (timestamp peer))
        then modify (relay_queue_put (peer, 2))
        else ret tt
    | _, _ => ret tt
    end
  else ret tt.

(** *** Address relay *)

(** [int.to_bytes(length, byteorder="big")] and [int.from_bytes(.., "big")]. *)
Fixpoint big_endian (length : nat) (z : Z) : list Z :=
  match length with
  | O => []
  | S n => big_endian n (z / 256) ++ [z mod 256]
  end.

Definition to_bytes (length : nat) (z : Z) : Res (list Z) :=
  if (0 <=? z) && (z <? 256 ^ Z.of_nat length) then Ok (big_endian length z)
  else Raise "OverflowError".

Definition from_bytes (bytes : list Z) : Z :=
  fold_left (fun acc b => acc * 256 + b) bytes 0.

Definition cur_hash (cur_day : Z) (peer : PeerInfo) : Res Z :=
  match to_bytes 32 (key self) with
  | Raise e => Raise e
  | Ok key_bytes =>
      match to_bytes 3 cur_day with
      | Raise e => Raise e
      | Ok day_bytes => Ok (from_bytes (std_hash (key_bytes ++ get_key peer ++ day_bytes)))
      end
  end.

Fixpoint relay_hashes (cur_day : Z) (connections : list Connection)
  : Res (list (Z * Connection)) :=
  match connections with
  | [] => Ok []
  | connection :: rest =>
      match cur_hash cur_day (conn_peer_info connection) with
      | Raise e => Raise e
      | Ok h =>
          match relay_hashes cur_day rest with
          | Raise e => Raise e
          | Ok hashes => Ok ((h, connection) :: hashes)
          end
      end
  end.

(** [hashes.sort(key=lambda x: x[0])]: ascending and stable. *)
Fixpoint insert_by_hash (x : Z * Connection) (sorted : list (Z * Connection))
  : list (Z * Connection) :=
  match sorted with
  | [] => [x]
  | y :: rest => if fst x <=? fst y then x :: y :: rest else y :: insert_by_hash x rest
  end.

Definition sort_by_hash (hashes : list (Z * Connection)) : list (Z * Connection) :=
  foldr insert_by_hash [] hashes.

(** The body of [for index, (_, connection) in enumerate(hashes)] for one
    neighbour. *)
Definition relay_to (relay_peer : TimestampedPeerInfo) (connection : Connection) : M unit :=
  let pair := (host (conn_peer_info connection), port (conn_peer_info connection)) in
  skip ← with_lock PeersLock
    (known ← get neighbour_known_peers;
     if knows_host pair (tp_host relay_peer) known then ret true
     else
       modify (set_known (add_host pair (tp_host relay_peer) (ensure_neighbour pair known)));;
       ret false);
  if (skip : bool) then ret tt
  else
    match node_id connection with
    | None => ret tt
    | Some id =>
        call_ (EvPushMessage (respond_peers_message FULL_NODE [relay_peer] SPECIFIC (Some id)))
    end.

Fixpoint relay_loop (relay_peer : TimestampedPeerInfo) (num_peers : Z) (index : Z)
    (hashes : list (Z * Connection)) : M unit :=
  match hashes with
  | [] => ret tt
  | (_, connection) :: rest =>
      if num_peers <=? index then ret tt
      else
        relay_to relay_peer connection;;
        relay_loop relay_peer num_peers (index + 1) rest
  end.

Definition lift_res {A} (r : Res A) : M A := fun _ st => (st, r).

Definition relay_once (item : TimestampedPeerInfo * Z) : M unit :=
  connections ← call EvGetFullNodeConnections env_full_node_connections;
  now ← time_time;
  let cur_day := int_of_float now / (24 * 60 * 60) in
  hashes ← lift_res (relay_hashes cur_day connections);
  relay_loop (fst item) (snd item) 0 (sort_by_hash hashes).

(** The text of [traceback.format_exc()] is not modelled: the second line of
    the log carries the exception again. *)
Definition relay_once_guarded (item : TimestampedPeerInfo * Z) : M unit :=
  try_except (relay_once item)
    (fun e => log_error ("Exception in address relay: " ++ e);;
              log_error ("Traceback: " ++ e)).

Definition _address_relay (items : list (TimestampedPeerInfo * Z)) : M LoopEnd :=
  while_not_closed_get items relay_once_guarded.

(** *** Self advertisement *)

Definition advertise_once (_ : unit) : M unit :=
  try_except
    (asyncio_sleep (24 * 3600);;
     with_lock PeersLock
       (modify (fun st => set_known ((fun _ => ∅) <$> neighbour_known_peers st) st));;
     peer ← call EvGetLocalPeerinfo env_local_peerinfo;
     match peer with
     | None => ret tt
     | Some peer =>
         now ← time_time;
         call_ (EvPushMessage
                  (respond_peers_message FULL_NODE
                     [mkTimestampedPeerInfo (host peer) (port peer)
                                            (uint64 (int_of_float now))]
                     BROADCAST None))
     end)
    (fun e => log_error ("Exception in self advertise: " ++ e);;
              log_error ("Traceback: " ++ e)).

Definition _periodically_self_advertise (fuel : nat) : M (LoopEnd * unit) :=
  while_not_closed fuel advertise_once tt.

(** [FullNodePeers.close]. *)
Definition close : M unit :=
  _close_common;;
  tell (EvCancel SelfAdvertiseTask);;
  tell (EvCancel AddressRelayTask).

(** The neighbours the loop of [_address_relay] gets to: the first
    [num_peers] of the sorted list. *)
Definition chosen_neighbours (num_peers : Z) (hashes : list (Z * Connection))
  : list Connection :=
  map snd (firstn (Z.to_nat num_peers) (sort_by_hash hashes)).

Fixpoint relay_each (relay_peer : TimestampedPeerInfo) (chosen : list Connection) : M unit :=
  match chosen with
  | [] => ret tt
  | connection :: rest => relay_to relay_peer connection;; relay_each relay_peer rest
  end.

(** The order of the sort, and its strict part. *)
Definition hash_le (x y : Z * Connection) : Prop := fst x <= fst y.
Definition hash_lt (x y : Z * Connection) : Prop := fst x < fst y.

(** The entry of [hashes] for a connection whose hash could be computed. *)
Definition hash_or_zero (cur_day : Z) (c : Connection) : Z * Connection :=
  (match cur_hash cur_day (conn_peer_info c) with Ok h => h | Raise _ => 0 end, c).

(** The set of hosts already advertised to a neighbour. *)
Definition known_hosts (pair : string * Z) (known : gmap (string * Z) (gset string))
  : gset string :=
  default ∅ (known !! pair).


End Discovery.

(** ** Reading a trace *)

Definition emit (evs : list Event) (st : St) : St :=
  mkSt (tick st + length evs)%nat (trace st ++ evs) (address_manager st) (relay_queue st)
       (neighbour_known_peers st) (connection_time_pretest st).

Definition is_clock_read (ev : Event) : bool :=
  match ev with EvTime _ => true | _ => false end.

Definition is_serialize (ev : Event) : bool :=
  match ev with EvStoreSerialize _ => true | _ => false end.

(** ** A small concrete world, used to run the code *)

#[refine] Instance toy_externals : Externals := {|
  uint64 := fun z => z;
  get_group := fun p => [port p / 256];
  get_key := fun p => [port p mod 256];
  std_hash := fun bytes => [fold_left Z.add bytes 0 mod 251];
  math_log := fun u => (u - 1)%Q
|}.
Proof. reflexivity. Defined.

Definition quiet_env : Env :=
  mkEnv (fun _ => None) (fun _ => false) (fun _ => inject_Z 1700000000) (fun _ => 0)
        (fun _ => 1) (fun _ => None) (fun _ => None) (fun _ => [])
        (fun _ => []) (fun _ => []) (fun _ => []) (fun _ => []) (fun _ => None)
        (fun _ => 0) (fun _ => false) (fun _ => O).

Definition fresh_state : St := mkSt 0 [] None (Some []) ∅ ∅.

Definition with_outbound (conns : list Connection) (env : Env) : Env :=
  mkEnv (env_fail env) (env_closed env) (env_time env) (env_random env) (env_size env)
        (env_select_tried_collision env) (env_select_peer env) (env_get_peers env)
        (fun _ => conns) (env_full_node_connections env) (env_connections env)
        (env_full_node_peerinfos env) (env_local_peerinfo env)
        (fun _ => Z.of_nat (length conns)) (env_store_is_empty env)
        (env_store_snapshot env).

Definition with_full_node_connections (conns : list Connection) (env : Env) : Env :=
  mkEnv (env_fail env) (env_closed env) (env_time env) (env_random env) (env_size env)
        (env_select_tried_collision env) (env_select_peer env) (env_get_peers env)
        (env_outbound_connections env) (fun _ => conns) (env_connections env)
        (fun _ => map conn_peer_info conns) (env_local_peerinfo env)
        (env_count_outbound env) (env_store_is_empty env) (env_store_snapshot env).

Definition with_get_peers (peers : list TimestampedPeerInfo) (env : Env) : Env :=
  mkEnv (env_fail env) (env_closed env) (env_time env) (env_random env) (env_size env)
        (env_select_tried_collision env) (env_select_peer env) (fun _ => peers)
        (env_outbound_connections env) (env_full_node_connections env)
        (env_connections env) (env_full_node_peerinfos env) (env_local_peerinfo env)
        (env_count_outbound env) (env_store_is_empty env) (env_store_snapshot env).

Definition with_fail (fail : nat -> option string) (env : Env) : Env :=
  mkEnv fail (env_closed env) (env_time env) (env_random env) (env_size env)
        (env_select_tried_collision env) (env_select_peer env) (env_get_peers env)
        (env_outbound_connections env) (env_full_node_connections env)
        (env_connections env) (env_full_node_peerinfos env) (env_local_peerinfo env)
        (env_count_outbound env) (env_store_is_empty env) (env_store_snapshot env).

Definition with_time (time : nat -> Q) (env : Env) : Env :=
  mkEnv (env_fail env) (env_closed env) time (env_random env) (env_size env)
        (env_select_tried_collision env) (env_select_peer env) (env_get_peers env)
        (env_outbound_connections env) (env_full_node_connections env)
        (env_connections env) (env_full_node_peerinfos env) (env_local_peerinfo env)
        (env_count_outbound env) (env_store_is_empty env) (env_store_snapshot env).

Definition with_random (draw : nat -> Z) (env : Env) : Env :=
  mkEnv (env_fail env) (env_closed env) (env_time env) draw (env_size env)
        (env_select_tried_collision env) (env_select_peer env) (env_get_peers env)
        (env_outbound_connections env) (env_full_node_connections env)
        (env_connections env) (env_full_node_peerinfos env) (env_local_peerinfo env)
        (env_count_outbound env) (env_store_is_empty env) (env_store_snapshot env).

Definition with_local_peerinfo (local : option PeerInfo) (env : Env) : Env :=
  mkEnv (env_fail env) (env_closed env) (env_time env) (env_random env) (env_size env)
        (env_select_tried_collision env) (env_select_peer env) (env_get_peers env)
        (env_outbound_connections env) (env_full_node_connections env)
        (env_connections env) (env_full_node_peerinfos env) (fun _ => local)
        (env_count_outbound env) (env_store_is_empty env) (env_store_snapshot env).

Definition with_select_peer (select : nat -> option ExtendedPeerInfo) (env : Env) : Env :=
  mkEnv (env_fail env) (env_closed env) (env_time env) (env_random env) (env_size env)
        (env_select_tried_collision env) select (env_get_peers env)
        (env_outbound_connections env) (env_full_node_connections env)
        (env_connections env) (env_full_node_peerinfos env) (env_local_peerinfo env)
        (env_count_outbound env) (env_store_is_empty env) (env_store_snapshot env).

Definition with_select_tried_collision (select : nat -> option ExtendedPeerInfo)
    (env : Env) : Env :=
  mkEnv (env_fail env) (env_closed env) (env_time env) (env_random env) (env_size env)
        select (env_select_peer env) (env_get_peers env)
        (env_outbound_connections env) (env_full_node_connections env)
        (env_connections env) (env_full_node_peerinfos env) (env_local_peerinfo env)
        (env_count_outbound env) (env_store_is_empty env) (env_store_snapshot env).

Definition with_store_snapshot (snapshot : option nat) (env : Env) : Env :=
  mkEnv (env_fail env) (env_closed env) (env_time env) (env_random env) (env_size env)
        (env_select_tried_collision env) (env_select_peer env) (env_get_peers env)
        (env_outbound_connections env) (env_full_node_connections env)
        (env_connections env) (env_full_node_peerinfos env) (env_local_peerinfo env)
        (env_count_outbound env)
        (fun _ => match snapshot with Some _ => false | None => true end)
        (fun _ => default O snapshot).

Definition peer_a : PeerInfo := mkPeerInfo "10.0.0.1" 8444.
Definition peer_b : PeerInfo := mkPeerInfo "10.1.0.2" 8445.
Definition peer_c : PeerInfo := mkPeerInfo "10.2.0.3" 8446.
Definition conn_a : Connection := mkConnection peer_a (Some 11) FULL_NODE.
Definition conn_b : Connection := mkConnection peer_b (Some 22) FULL_NODE.
Definition conn_c : Connection := mkConnection peer_c None FULL_NODE.
Definition gossip : list TimestampedPeerInfo :=
  [mkTimestampedPeerInfo "10.5.0.1" 8444 1699999000;
   mkTimestampedPeerInfo "10.6.0.1" 8444 1699999500].
Definition toy_self : Config := mkConfig 8 (mkPeerInfo "introducer" 8445) 30 12345.

(** A node that wants one outbound connection and has it. *)
Definition one_peer_self : Config := mkConfig 1 (mkPeerInfo "introducer" 8445) 30 12345.
Definition satisfied_env : Env := with_outbound [conn_a] quiet_env.

(** A clock that advances by ten seconds with every interaction. *)
Definition ticking_env : Env :=
  with_time (fun n => inject_Z (1700000000 + 10 * Z.of_nat n)) quiet_env.

(** A store that holds snapshot 7. *)
Definition restoring_env : Env := with_store_snapshot (Some 7%nat) quiet_env.

(** [peer_a] has already been told about host 10.5.0.1. *)
Definition known_state : St :=
  mkSt 0 [] None (Some []) {[ (host peer_a, port peer_a) := {[ "10.5.0.1" ]} ]} ∅.

Definition relayed_peer : TimestampedPeerInfo :=
  mkTimestampedPeerInfo "10.5.0.1" 8444 1699999000.

Definition first_try : TryVars := mkTryVars 0 false None false false None 0.

(** The world in which the address manager offers [peer_b], last tried at
    [last_try], to the first pass of the inner loop of an iteration that
    starts at count 0 (the call of [select_peer] at count 8), and nothing
    afterwards. *)
Definition offering_once (last_try : Z) : Env :=
  with_select_peer
    (fun n => if Nat.eqb n 8 then Some (mkExtendedPeerInfo peer_b last_try) else None)
    quiet_env.

(** A node that has been initialised with a fresh manager. *)
Definition running_state : St := mkSt 0 [] (Some AddressManager_new) (Some []) ∅ ∅.

(** The world in which the call made at count [n] raises [e]. *)
Definition failing_at (n : nat) (e : string) : Env :=
  with_fail (fun k => if Nat.eqb k n then Some e else None) quiet_env.

(** The events of one round of [_periodically_serialize] that starts at
    count [t]. *)
Definition serialize_round (env : Env) (am : option AddressManager) (t : nat) : list Event :=
  [EvRandom; EvSleep (15 * 60 + env_random env t mod (30 * 60 - 15 * 60 + 1));
   EvLockAcquire ManagerLock; EvStoreSerialize am; EvLockRelease ManagerLock].

Fixpoint serialize_rounds (env : Env) (am : option AddressManager) (t : nat) (n : nat)
  : list Event :=
  match n with
  | O => []
  | S n' => serialize_round env am t ++ serialize_rounds env am (t + 5) n'
  end.

(** ** What the specification says about timestamps, in its own words *)

(** Full-node source: a timestamp below [10^8] or above [now + 600] is
    replaced by [now - 5 days]; any other is kept. *)
Definition sanitized `{Externals} (now : Q) (peer : TimestampedPeerInfo) : TimestampedPeerInfo :=
  if (timestamp peer <? 100000000)
     || Qltb (now + inject_Z 600)%Q (inject_Z (timestamp peer))
  then mkTimestampedPeerInfo (tp_host peer) (tp_port peer)
         (uint64 (int_of_float (now - inject_Z 432000)%Q))
  else peer.

(** Wallet source: the timestamp is dropped. *)
Definition zeroed (peer : TimestampedPeerInfo) : TimestampedPeerInfo :=
  mkTimestampedPeerInfo (tp_host peer) (tp_port peer) 0.

(** ** What the specification says about candidates, in its own words *)

(** A candidate is rejected when it is a non-feeler whose group is already
    represented, when it is already connected, when its [last_try] was
    within the last hour and fewer than 30 tries have been made, or when it
    equals the local endpoint. *)
Definition rejected `{Externals} (is_feeler : bool) (groups : list (list Z))
    (connected : list PeerInfo) (now : Q) (tries_so_far : Z) (local : option PeerInfo)
    (info : ExtendedPeerInfo) : bool :=
  (negb is_feeler && bool_decide (get_group (peer_info info) ∈ groups))
  || bool_decide (peer_info info ∈ connected)
  || (Qltb (now - inject_Z (last_try info))%Q (inject_Z 3600) && (tries_so_far <? 30))
  || bool_decide (local = Some (peer_info info)).

(** The calls that select a candidate. *)
Definition is_selection (from_collisions : bool) (ev : Event) : bool :=
  match ev with
  | EvSelectTriedCollision => from_collisions
  | EvSelectPeer _ => negb from_collisions
  | _ => false
  end.

Definition selections (from_collisions : bool) (evs : list Event) : Z :=
  Z.of_nat (length (filter (fun ev => is_selection from_collisions ev = true) evs)).

(** ** Reading the rate limit of [update_connection_time] off a trace *)

(** In a trace of [_process_messages] the clock is read right before
    [connect] only by the handler of [update_connection_time]: the pairs of
    the host and of that reading, in the order of the calls. *)
Fixpoint timed_connects (evs : list Event) : list (string * Q) :=
  match evs with
  | [] => []
  | EvTime t :: rest =>
      match rest with
      | EvConnect p :: _ => (host p, t) :: timed_connects rest
      | _ => timed_connects rest
      end
  | _ :: rest => timed_connects rest
  end.

(** Two calls for the same host are more than 60 seconds apart. *)
Definition apart (x y : string * Q) : Prop :=
  fst x = fst y -> (inject_Z 60 < snd y - snd x)%Q.

Definition starts_with_connect (evs : list Event) : bool :=
  match evs with
  | EvConnect _ :: _ => true
  | _ => false
  end.

Definition pretest_inv (env : Env) (st : St) : Prop :=
  (forall h t, (h, t) ∈ timed_connects (trace st) ->
     exists recorded, connection_time_pretest st !! h = Some recorded /\ (t <= recorded)%Q) /\
  (forall h recorded, connection_time_pretest st !! h = Some recorded ->
     forall n, (tick st <= n)%nat -> (recorded <= env_time env n)%Q) /\
  StronglySorted apart (timed_connects (trace st)).


(** The connections handed to [global_connections.close], in order. *)
Definition closed_connections (evs : list Event) : list Connection :=
  omap (fun ev => match ev with EvCloseConnection c => Some c | _ => None end) evs.

Definition is_introducer (c : Connection) : bool :=
  bool_decide (connection_type c = INTRODUCER).

(** What holds of the locals of the inner loop once a candidate has been
    accepted. *)
Definition accepted `{Externals} (is_feeler : bool) (groups : list (list Z))
    (connected : list PeerInfo) (v : TryVars) : Prop :=
  got_peer v = true ->
  exists a,
    addr v = Some a /\
    (a ∉ connected) /\
    (is_feeler = false -> get_group a ∉ groups) /\
    tv_local_peerinfo v <> Some a.

(** The interactions of an iteration of the discovery loop that does not
    go to the introducer, for the feeler decision [is_feeler]: it never
    closes a connection, asks [select_peer] with [new_only = is_feeler], and
    dials without a callback, with [disconnect_after_handshake] set if the
    iteration is a feeler. *)
Definition iteration_event (is_feeler : bool) (ev : Event) : Prop :=
  match ev with
  | EvSize | EvGetFullNodePeerinfos | EvGetOutboundConnections
  | EvCountOutboundConnections | EvTime _ | EvRandom | EvResolveTriedCollisions
  | EvSleep _ | EvSelectTriedCollision | EvGetLocalPeerinfo => True
  | EvSelectPeer new_only => new_only = is_feeler
  | EvStartClient _ on_connect disconnect =>
      on_connect = false /\
      exists b, disconnect = Some b /\ (is_feeler = true -> b = true)
  | _ => False
  end.

(** The dials of a trace. *)
Definition dials (evs : list Event) : list PeerInfo :=
  omap (fun ev => match ev with EvStartClient target _ _ => Some target | _ => None end) evs.

(** ** Port mapping (src/server/upnp.py) *)

Module Upnp.

(** The calls on the [miniupnpc.UPnP] object and on the logger.  The three
    log lines are told apart by their constructor; the text of a line is
    fixed but for the values shown. *)
Inductive Event :=
| LogAttempting (port : Z)
| NewUPnP
| SetDiscoverDelay (delay : Z)
| Discover
| SelectIgd
| AddPortMapping (external_port : Z) (protocol : string) (internal_host : string)
                 (internal_port : Z) (description : string) (remote_host : string)
| ExternalIpAddress
| LogOpened (port : Z) (lanaddr : string) (external : string)
| LogFailed.

(** What the library does on this machine: which of its calls raise, and
    the addresses it reports. *)
Record Library := mkLibrary {
  new_raises : bool;
  discover_raises : bool;
  selectigd_raises : bool;
  addportmapping_raises : bool;
  externalipaddress_raises : bool;
  lanaddr : string;
  externalipaddress : string
}.

(** A run so far: the calls made, and how it stands. *)
Definition Run : Type := list Event * Res unit.

Definition step (ev : Event) (raises : bool) : Run :=
  ([ev], if raises then Raise "Exception" else Ok tt).

Definition and_then (first second : Run) : Run :=
  match snd first with
  | Ok _ => (fst first ++ fst second, snd second)
  | Raise e => first
  end.

(** The body of the [try]. *)
Definition try_body (lib : Library) (port : Z) : Run :=
  and_then (step NewUPnP (new_raises lib))
  (and_then (step (SetDiscoverDelay 30) false)
  (and_then (step Discover (discover_raises lib))
  (and_then (step SelectIgd (selectigd_raises lib))
  (and_then (step (AddPortMapping port "TCP" (lanaddr lib) port "chia" "")
                  (addportmapping_raises lib))
  (and_then (step ExternalIpAddress (externalipaddress_raises lib))
            (step (LogOpened port (lanaddr lib) (externalipaddress lib)) false)))))).

Definition upnp_remap_port (lib : Library) (port : Z) : Run :=
  and_then (step (LogAttempting port) false)
    (match snd (try_body lib port) with
     | Ok _ => try_body lib port
     | Raise _ => (fst (try_body lib port) ++ [LogFailed], Ok tt)
     end).

End Upnp.

(** * Properties *)

(** *** Comparisons of rationals *)

Lemma Qltb_lt (a b : Q) : Qltb a b = true <-> (a < b)%Q.
Proof.
  unfold Qltb. rewrite negb_true_iff. split.
  - intros H. apply Qnot_le_lt. intros Hle. apply Qle_bool_iff in Hle. congruence.
  - intros H. destruct (Qle_bool b a) eqn:E; [|reflexivity].
    apply Qle_bool_iff in E. exfalso. apply (Qlt_not_le _ _ H E).
Qed.

Lemma Qltb_ge (a b : Q) : Qltb a b = false <-> (b <= a)%Q.
Proof.
  unfold Qltb. rewrite negb_false_iff. apply Qle_bool_iff.
Qed.

(** *** Rounding to binary64 *)

Lemma round_half_even_error (x : Q) :
  (Qabs (inject_Z (round_half_even x) - x) <= 1 # 2)%Q.
Proof.
  unfold round_half_even.
  pose proof (Qfloor_le x) as Hle. pose proof (Qlt_floor x) as Hlt.
  set (f := Qfloor x) in *.
  rewrite inject_Z_plus in Hlt. change (inject_Z 1) with 1%Q in Hlt.
  apply Qabs_Qle_condition.
  assert (inject_Z (f + 1) == inject_Z f + 1)%Q as Hf by (rewrite inject_Z_plus; reflexivity).
  destruct (Qcompare_spec (x - inject_Z f) (1 # 2)) as [E|E|E].
  - destruct (Z.even f); rewrite ?Hf; split; lra.
  - split; lra.
  - rewrite Hf. split; lra.
Qed.

Lemma ilog2_le (x : Q) : (0 < x)%Q -> (2 ^ ilog2 x <= x)%Q.
Proof.
  intros Hx. unfold ilog2.
  set (k := Z.log2 (Qnum x) - Z.log2 (Z.pos (Qden x))).
  destruct (Qle_bool (2 ^ k) x) eqn:E; [apply Qle_bool_iff, E|].
  destruct x as [n d]. cbn [Qnum Qden] in *.
  assert (0 < n) as Hn by (unfold Qlt in Hx; cbn in Hx; lia).
  pose proof (Z.log2_spec n Hn) as [Hn1 _].
  pose proof (Z.log2_spec (Z.pos d) ltac:(lia)) as [_ Hd2].
  pose proof (Z.log2_nonneg n) as Ha. pose proof (Z.log2_nonneg (Z.pos d)) as Hb.
  set (a := Z.log2 n) in *. set (b := Z.log2 (Z.pos d)) in *.
  assert ((2 ^ (k - 1)) * inject_Z (2 ^ Z.succ b) == inject_Z (2 ^ a))%Q as Hk.
  { rewrite !Zpower_Qpower by lia. change (inject_Z 2) with 2%Q.
    rewrite <- Qpower_plus by discriminate. subst k. f_equiv. lia. }
  assert (0 < 2 ^ (k - 1))%Q as Hpos by (apply Qpower_0_lt; reflexivity).
  assert (inject_Z (Z.pos d) <= inject_Z (2 ^ Z.succ b))%Q as Hd by (rewrite <- Zle_Qle; lia).
  assert (inject_Z (2 ^ a) <= inject_Z n)%Q as Hn' by (rewrite <- Zle_Qle; lia).
  assert (n # d == inject_Z n / inject_Z (Z.pos d))%Q as -> by (rewrite Qmake_Qdiv; reflexivity).
  apply Qle_shift_div_l; [reflexivity|].
  apply Qle_trans with (2 ^ (k - 1) * inject_Z (2 ^ Z.succ b))%Q.
  - apply Qmult_le_l; assumption.
  - rewrite Hk. exact Hn'.
Qed.

Lemma Qabs_pos_lt (x : Q) : ~ x == 0 -> (0 < Qabs x)%Q.
Proof.
  intros Hx. destruct (Qlt_le_dec 0 x) as [H|H].
  - rewrite Qabs_pos by lra. exact H.
  - rewrite Qabs_neg by exact H. destruct (Qle_lt_or_eq _ _ H) as [H'|H']; [lra|].
    contradiction.
Qed.

(** The relative error of a rounding is at most 2^-53. *)
Lemma binary64_error (x : Q) : (Qabs (binary64 x - x) <= Qabs x * eps64)%Q.
Proof.
  unfold binary64. destruct (Qeq_bool x 0) eqn:E.
  - apply Qeq_bool_iff in E. rewrite E. cbn. discriminate.
  - apply Qeq_bool_neq in E. rewrite Qred_correct.
    pose proof (Qabs_pos_lt x E) as Habs.
    pose proof (ilog2_le (Qabs x) Habs) as Hlog.
    set (e := ilog2 (Qabs x)) in *.
    assert (2 ^ (e - 52) == 2 ^ e * (1 # 2 ^ 52))%Q as Hu.
    { rewrite Qpower_minus by discriminate. reflexivity. }
    assert (0 < 2 ^ (e - 52))%Q as Hpos by (apply Qpower_0_lt; reflexivity).
    set (u := (2 ^ (e - 52))%Q) in *.
    pose proof (round_half_even_error (x / u)) as Hr.
    set (m := inject_Z (round_half_even (x / u))) in *.
    assert (m * u - x == (m - x / u) * u)%Q as ->.
    { field. intros H. rewrite H in Hpos. discriminate Hpos. }
    rewrite Qabs_Qmult, (Qabs_pos u) by lra.
    apply Qle_trans with ((1 # 2) * u)%Q.
    + apply Qmult_le_compat_r; [exact Hr | lra].
    + rewrite Hu. set (p := (2 ^ e)%Q) in *.
      assert (eps64 == (1 # 2) * (1 # 2 ^ 52))%Q as -> by reflexivity.
      assert (0 <= 1 # 2 ^ 52)%Q as Hk by discriminate.
      revert Hk. generalize (1 # 2 ^ 52)%Q. intros k Hk.
      assert ((1 # 2) * (p * k) == p * ((1 # 2) * k))%Q as -> by ring.
      apply Qmult_le_compat_r; [exact Hlog | lra].
Qed.

Lemma binary64_near (x B : Q) :
  (- B <= x)%Q -> (x <= B)%Q ->
  (x - B * eps64 <= binary64 x)%Q /\ (binary64 x <= x + B * eps64)%Q.
Proof.
  intros H1 H2. pose proof (binary64_error x) as H.
  assert (Qabs x <= B)%Q as HB by (apply Qabs_Qle_condition; split; assumption).
  assert (Qabs (binary64 x - x) <= B * eps64)%Q as H'.
  { eapply Qle_trans; [exact H|]. apply Qmult_le_compat_r; [exact HB | discriminate]. }
  apply Qabs_Qle_condition in H'. split; lra.
Qed.

Lemma binary64_nonneg (x : Q) :
  (0 <= x)%Q ->
  (x * (1 - eps64) <= binary64 x)%Q /\ (binary64 x <= x * (1 + eps64))%Q.
Proof.
  intros Hx. destruct (binary64_near x x) as [H1 H2]; [lra | lra |]. split; lra.
Qed.

Lemma binary64_nonpos (x : Q) :
  (x <= 0)%Q ->
  (x * (1 + eps64) <= binary64 x)%Q /\ (binary64 x <= x * (1 - eps64))%Q.
Proof.
  intros Hx. destruct (binary64_near x (- x)) as [H1 H2]; [lra | lra |]. split; lra.
Qed.

Section Properties.
Context `{Ext : Externals}.

Lemma emit_nil st : emit [] st = st.
Proof.
  destruct st; unfold emit; simpl. rewrite Nat.add_0_r, app_nil_r. reflexivity.
Qed.

Lemma emit_app evs1 evs2 st : emit evs2 (emit evs1 st) = emit (evs1 ++ evs2) st.
Proof.
  unfold emit; simpl. rewrite length_app, Nat.add_assoc, app_assoc. reflexivity.
Qed.

Lemma record_emit ev st : record ev st = emit [ev] st.
Proof. unfold record, emit; simpl. rewrite Nat.add_1_r. reflexivity. Qed.

Lemma uint64_zero : uint64 0 = 0.
Proof. apply uint64_in_range. lia. Qed.

(** *** Timestamps on ingest *)

Lemma adjust_timestamp_wallet peer env st :
  exists reads,
    Forall (fun ev => is_clock_read ev = true) reads /\
    adjust_timestamp false peer env st = (emit reads st, Ok (zeroed peer)).
Proof.
  unfold adjust_timestamp, zeroed, mbind, M_bind, bind, time_time, ret.
  rewrite uint64_zero.
  destruct (timestamp peer <? 100000000); simpl.
  - rewrite !record_emit. eexists; split; [|reflexivity]. repeat constructor.
  - destruct (Qltb _ _); simpl; rewrite !record_emit, ?emit_app;
      (eexists; split; [|reflexivity]); repeat constructor.
Qed.

Lemma adjust_timestamps_wallet peer_list env st :
  exists reads,
    Forall (fun ev => is_clock_read ev = true) reads /\
    adjust_timestamps false peer_list env st = (emit reads st, Ok (map zeroed peer_list)).
Proof.
  revert st. induction peer_list as [|peer rest IH]; intros st; simpl.
  - exists []. rewrite emit_nil. split; [constructor | reflexivity].
  - destruct (adjust_timestamp_wallet peer env st) as (r1 & Hr1 & E1).
    destruct (IH (emit r1 st)) as (r2 & Hr2 & E2).
    exists (r1 ++ r2). split; [apply Forall_app; auto|].
    unfold mbind, M_bind, bind. rewrite E1, E2, emit_app. reflexivity.
Qed.

(** C9.  A peer list that comes from a wallet source ([is_full_node] false)
    reaches the address manager with every timestamp replaced by 0, whatever
    timestamp was supplied, and [add_to_new_table] is called with source
    [None] and penalty 0.  Before that call the handler only reads the
    clock. *)
Theorem wallet_peers_stored_with_zero_timestamp
    (peer_list : list TimestampedPeerInfo) (peer_src : PeerInfo) (env : Env) (st : St) :
  exists reads,
    Forall (fun ev => is_clock_read ev = true) reads /\
    trace (fst (_respond_peers_common peer_list peer_src false env st)) =
      trace st ++ reads ++ [EvAddToNewTable (map zeroed peer_list) None 0] /\
    Forall (fun p => timestamp p = 0) (map zeroed peer_list).
Proof.
  destruct (adjust_timestamps_wallet peer_list env st) as (reads & Hreads & E).
  exists reads. split; [exact Hreads|]. split.
  - unfold _respond_peers_common, mbind, M_bind, bind. rewrite E. simpl.
    unfold call_, call. destruct (env_fail env _); simpl; rewrite <- app_assoc; reflexivity.
  - clear. induction peer_list; simpl; constructor; auto.
Qed.

Lemma adjust_timestamp_full_node now peer env st :
  (forall n, env_time env n = now) ->
  exists reads,
    Forall (fun ev => is_clock_read ev = true) reads /\
    adjust_timestamp true peer env st = (emit reads st, Ok (sanitized now peer)).
Proof.
  intros Hnow.
  unfold adjust_timestamp, sanitized, mbind, M_bind, bind, time_time, ret.
  destruct (timestamp peer <? 100000000); simpl.
  - rewrite !record_emit, !Hnow. eexists; split; [|reflexivity]. repeat constructor.
  - rewrite !Hnow. change (10 * 60) with 600.
    destruct (Qltb _ _); simpl; rewrite !record_emit, ?emit_app, ?Hnow;
      (eexists; split; [|reflexivity]); repeat constructor.
Qed.

Lemma adjust_timestamps_full_node now peer_list env st :
  (forall n, env_time env n = now) ->
  exists reads,
    Forall (fun ev => is_clock_read ev = true) reads /\
    adjust_timestamps true peer_list env st =
      (emit reads st, Ok (map (sanitized now) peer_list)).
Proof.
  intros Hnow. revert st. induction peer_list as [|peer rest IH]; intros st; simpl.
  - exists []. rewrite emit_nil. split; [constructor | reflexivity].
  - destruct (adjust_timestamp_full_node now peer env st Hnow) as (r1 & Hr1 & E1).
    destruct (IH (emit r1 st)) as (r2 & Hr2 & E2).
    exists (r1 ++ r2). split; [apply Forall_app; auto|].
    unfold mbind, M_bind, bind. rewrite E1, E2, emit_app. reflexivity.
Qed.

Lemma sanitized_keeps now peer :
  100000000 <= timestamp peer ->
  (inject_Z (timestamp peer) <= now + inject_Z 600)%Q ->
  sanitized now peer = peer.
Proof.
  intros Hlow Hhigh. unfold sanitized.
  destruct (timestamp peer <? 100000000) eqn:E1; [apply Z.ltb_lt in E1; lia|].
  destruct (Qltb _ _) eqn:E2; [|reflexivity].
  apply Qltb_lt in E2. exfalso. apply (Qlt_not_le _ _ E2 Hhigh).
Qed.

Lemma sanitized_replaces now peer :
  timestamp peer < 100000000 \/ (now + inject_Z 600 < inject_Z (timestamp peer))%Q ->
  sanitized now peer =
    mkTimestampedPeerInfo (tp_host peer) (tp_port peer)
      (uint64 (int_of_float (now - inject_Z 432000)%Q)).
Proof.
  intros [Hlow | Hhigh]; unfold sanitized.
  - apply Z.ltb_lt in Hlow. rewrite Hlow. reflexivity.
  - apply Qltb_lt in Hhigh. rewrite Hhigh, orb_true_r. reflexivity.
Qed.

(** C4, as the code has it.  A peer list from a full-node source reaches the
    address manager with every timestamp below 10^8 or above [now + 600]
    replaced by [int(now - 5 days)] and every other peer as it was received.
    A timestamp of exactly 10^8 is valid and kept, one of exactly [now + 600]
    is valid and kept, and one of [now + 601] is replaced.  [now] is the
    reading of the clock during the call. *)
Theorem full_node_peers_stored_with_sanitized_timestamp
    (peer_list : list TimestampedPeerInfo) (peer_src : PeerInfo)
    (env : Env) (st : St) (now : Q)
    (Hclock : forall n, env_time env n = now) :
  (exists reads,
     Forall (fun ev => is_clock_read ev = true) reads /\
     trace (fst (_respond_peers_common peer_list peer_src true env st)) =
       trace st ++ reads ++
       [EvAddToNewTable (map (sanitized now) peer_list) (Some peer_src) 7200]) /\
  (forall peer,
     timestamp peer < 100000000 \/ (now + inject_Z 600 < inject_Z (timestamp peer))%Q ->
     sanitized now peer =
       mkTimestampedPeerInfo (tp_host peer) (tp_port peer)
         (uint64 (int_of_float (now - inject_Z (5 * 24 * 60 * 60))%Q))) /\
  (forall peer,
     100000000 <= timestamp peer ->
     (inject_Z (timestamp peer) <= now + inject_Z 600)%Q ->
     sanitized now peer = peer) /\
  (forall peer,
     timestamp peer = 100000000 -> (inject_Z 100000000 <= now + inject_Z 600)%Q ->
     sanitized now peer = peer) /\
  (forall peer,
     (inject_Z (timestamp peer) == now + inject_Z 600)%Q -> 100000000 <= timestamp peer ->
     sanitized now peer = peer) /\
  (forall peer,
     (inject_Z (timestamp peer) == now + inject_Z 601)%Q ->
     timestamp (sanitized now peer) =
       uint64 (int_of_float (now - inject_Z (5 * 24 * 60 * 60))%Q)).
Proof.
  split; [|split; [|split; [|split; [|split]]]].
  - destruct (adjust_timestamps_full_node now peer_list env st Hclock)
      as (reads & Hreads & E).
    exists reads. split; [exact Hreads|].
    unfold _respond_peers_common, mbind, M_bind, bind. rewrite E. simpl.
    unfold call_, call. destruct (env_fail env _); simpl; rewrite <- app_assoc; reflexivity.
  - intros peer H. apply sanitized_replaces, H.
  - intros peer H1 H2. apply sanitized_keeps; assumption.
  - intros peer H1 H2. apply sanitized_keeps; [lia | rewrite H1; exact H2].
  - intros peer H1 H2. apply sanitized_keeps; [exact H2 | rewrite H1; apply Qle_refl].
  - intros peer H. rewrite sanitized_replaces; [reflexivity|].
    right. rewrite H. apply Qplus_lt_r. reflexivity.
Qed.

(** *** Requests for peers *)

Lemma request_peers_outbound (self : Config) (p : PeerInfo) env st :
  env_fail env (tick st) = None ->
  In p (map conn_peer_info (env_outbound_connections env (tick st))) ->
  request_peers p env st = (emit [EvGetOutboundConnections] st, Ok []).
Proof.
  intros Hok Hin.
  unfold request_peers, try_except, mbind, M_bind, bind, call. rewrite Hok.
  assert (existsb (fun conn => bool_decide (conn_peer_info conn = p))
            (env_outbound_connections env (tick st)) = true) as ->.
  { apply existsb_exists. apply in_map_iff in Hin. destruct Hin as (c & <- & Hc).
    exists c. split; [exact Hc|]. apply bool_decide_eq_true. reflexivity. }
  simpl. rewrite record_emit. reflexivity.
Qed.

Lemma request_peers_not_outbound (self : Config) (p : PeerInfo) env st :
  env_fail env (tick st) = None ->
  env_fail env (S (tick st)) = None ->
  ~ In p (map conn_peer_info (env_outbound_connections env (tick st))) ->
  snd (request_peers p env st) =
    Ok [respond_peers_message FULL_NODE (env_get_peers env (S (tick st))) RESPOND None;
        respond_peers_message WALLET (env_get_peers env (S (tick st))) RESPOND None].
Proof.
  intros Hok Hok' Hnotin.
  unfold request_peers, try_except, mbind, M_bind, bind, call. rewrite Hok.
  assert (existsb (fun conn => bool_decide (conn_peer_info conn = p))
            (env_outbound_connections env (tick st)) = false) as ->.
  { apply not_true_is_false. intros H. apply existsb_exists in H.
    destruct H as (c & Hc & Hp). apply bool_decide_eq_true in Hp.
    apply Hnotin, in_map_iff. exists c. split; assumption. }
  simpl. rewrite Hok'. reflexivity.
Qed.


(** *** Loops *)

Lemma try_except_never_raises {A} (body : M A) (handler : string -> M A) env st :
  (forall e st1, exists st2 a, handler e env st1 = (st2, Ok a)) ->
  exists st' a, try_except body handler env st = (st', Ok a).
Proof.
  intros Hh. unfold try_except. destruct (body env st) as [st1 [a|e]].
  - eauto.
  - apply Hh.
Qed.

Lemma while_not_closed_get_never_raises {I} (items : list I) (body : I -> M unit) env st :
  (forall item st1, exists st2 a, body item env st1 = (st2, Ok a)) ->
  exists st' r, while_not_closed_get items body env st = (st', Ok r).
Proof.
  intros Hb. revert st. induction items as [|item rest IH]; intros st; simpl.
  - eexists _, _. reflexivity.
  - unfold mbind, M_bind, bind, is_closed. destruct (env_closed env (tick st)).
    + eexists _, _. reflexivity.
    + destruct (Hb item st) as (st2 & [] & E). rewrite E. apply IH.
Qed.

Lemma while_not_closed_never_raises {V} fuel (body : V -> M V) (vars : V) env st :
  (forall v st1, exists st2 v', body v env st1 = (st2, Ok v')) ->
  exists st' r, while_not_closed fuel body vars env st = (st', Ok r).
Proof.
  intros Hb. revert vars st. induction fuel as [|fuel IH]; intros vars st; simpl.
  - eexists _, _. reflexivity.
  - unfold mbind, M_bind, bind, is_closed. destruct (env_closed env (tick st)).
    + eexists _, _. reflexivity.
    + destruct (Hb vars st) as (st2 & v' & E). rewrite E. apply IH.
Qed.

(** The three loops whose body sits in a [try] never let an exception out. *)
Lemma process_messages_never_raises items env st :
  exists st' r, _process_messages items env st = (st', Ok r).
Proof.
  apply while_not_closed_get_never_raises. intros item st1.
  apply try_except_never_raises. intros e st2. eexists _, _. reflexivity.
Qed.

Lemma address_relay_never_raises (self : Config) items env st :
  exists st' r, _address_relay self items env st = (st', Ok r).
Proof.
  apply while_not_closed_get_never_raises. intros item st1.
  apply try_except_never_raises. intros e st2. eexists _, _. reflexivity.
Qed.

Lemma self_advertise_never_raises fuel env st :
  exists st' r, _periodically_self_advertise fuel env st = (st', Ok r).
Proof.
  apply while_not_closed_never_raises. intros [] st1.
  apply try_except_never_raises. intros e st2. eexists _, _. reflexivity.
Qed.

(** *** Snapshots of the address manager *)

Lemma serialize_once_run env st :
  exists r,
    serialize_once tt env st =
      (emit (serialize_round env (address_manager st) (tick st)) st, r) /\
    (env_fail env (tick st + 3) = None -> r = Ok tt).
Proof.
  unfold serialize_once, randint, asyncio_sleep, tell, ask, with_lock, call_, call, get,
    mbind, M_bind, bind. simpl.
  replace (S (S (S (tick st)))) with (tick st + 3)%nat by lia.
  destruct (env_fail env (tick st + 3)) as [e|]; simpl;
    (eexists; split; [|try congruence; try reflexivity]).
  all: unfold emit, record, serialize_round; simpl; repeat rewrite <- app_assoc; simpl;
    f_equal; f_equal; lia.
Qed.

Lemma periodically_serialize_run n env st :
  (forall k, env_closed env k = false) ->
  (forall k, env_fail env k = None) ->
  _periodically_serialize n env st =
    (emit (serialize_rounds env (address_manager st) (tick st) n) st, Ok (StillRunning, tt)).
Proof.
  intros Hopen Hok. revert st. induction n as [|n IH]; intros st.
  - simpl. rewrite emit_nil. reflexivity.
  - unfold _periodically_serialize in *. simpl.
    unfold mbind, M_bind, bind, is_closed. rewrite Hopen.
    destruct (serialize_once_run env st) as (r & E & Hr).
    rewrite E, (Hr (Hok _)), IH, emit_app. reflexivity.
Qed.

Lemma serialize_interval_range env t :
  15 * 60 <= 15 * 60 + env_random env t mod (30 * 60 - 15 * 60 + 1) <= 30 * 60.
Proof.
  pose proof (Z.mod_pos_bound (env_random env t) (30 * 60 - 15 * 60 + 1)). lia.
Qed.

Lemma close_common_trace env st :
  trace (fst (_close_common env st)) =
    trace st ++ [EvSetClosed; EvCancel ConnectPeersTask; EvCancel ProcessMessagesTask;
                 EvCancel SerializeTask; EvDbClose].
Proof.
  unfold _close_common, tell, ask, call_, call, mbind, M_bind, bind. simpl.
  destruct (env_fail env _); simpl; repeat rewrite <- app_assoc; reflexivity.
Qed.

Lemma close_never_serializes env st :
  filter is_serialize (trace (fst (close env st))) = filter is_serialize (trace st).
Proof.
  unfold close, _close_common, tell, ask, call_, call, mbind, M_bind, bind. simpl.
  destruct (env_fail env _); simpl; rewrite !filter_app; simpl; rewrite ?app_nil_r;
    reflexivity.
Qed.

Lemma initialize_restores env st :
  (forall k, env_fail env k = None) ->
  env_store_is_empty env (tick st + 3) = false ->
  initialize_address_manager env st =
    (set_address_manager (AddressManager_restored (env_store_snapshot env (tick st + 4)))
       (emit [EvMkdir; EvDbConnect; EvStoreCreate; EvStoreIsEmpty; EvStoreDeserialize] st),
     Ok tt).
Proof.
  intros Hok Hfull.
  unfold initialize_address_manager, call_, call, modify, mbind, M_bind, bind. simpl.
  rewrite !Hok. cbn [tick record].
  replace (S (S (S (tick st)))) with (tick st + 3)%nat by lia.
  rewrite Hfull. cbn [negb tick record]. rewrite Hok.
  replace (S (tick st + 3)) with (tick st + 4)%nat by lia.
  unfold set_address_manager, emit, record; simpl.
  repeat rewrite <- app_assoc. simpl.
  repeat f_equal; lia.
Qed.

(** C2, as the code has it.  While the node runs, every round of
    [_periodically_serialize] draws an interval between 15 and 30 minutes,
    sleeps for it and then writes the address manager to the store, under
    the manager's lock.  Closing the node writes nothing to the store.  On
    startup a store that is not empty gives the node the manager read back
    from it. *)
Theorem address_manager_snapshots
    (n : nat) (env : Env) (st : St)
    (Hopen : forall k, env_closed env k = false)
    (Hok : forall k, env_fail env k = None) :
  _periodically_serialize n env st =
    (emit (serialize_rounds env (address_manager st) (tick st) n) st,
     Ok (StillRunning, tt)) /\
  (forall t am,
      serialize_round env am t =
        [EvRandom; EvSleep (15 * 60 + env_random env t mod (30 * 60 - 15 * 60 + 1));
         EvLockAcquire ManagerLock; EvStoreSerialize am; EvLockRelease ManagerLock] /\
      15 * 60 <= 15 * 60 + env_random env t mod (30 * 60 - 15 * 60 + 1) <= 30 * 60) /\
  filter is_serialize (trace (fst (close env st))) = filter is_serialize (trace st) /\
  filter is_serialize (trace (fst (_close_common env st))) = filter is_serialize (trace st) /\
  (env_store_is_empty env (tick st + 3) = false ->
   address_manager (fst (initialize_address_manager env st)) =
     Some (AddressManager_restored (env_store_snapshot env (tick st + 4))) /\
   trace (fst (initialize_address_manager env st)) =
     trace st ++ [EvMkdir; EvDbConnect; EvStoreCreate; EvStoreIsEmpty; EvStoreDeserialize]).
Proof.
  split; [apply periodically_serialize_run; assumption|].
  split; [intros t am; split; [reflexivity | apply serialize_interval_range]|].
  split; [apply close_never_serializes|].
  split.
  - rewrite close_common_trace, filter_app. simpl. apply app_nil_r.
  - intros Hfull. rewrite (initialize_restores env st Hok Hfull). split; reflexivity.
Qed.

(** *** Address relay *)

Lemma insert_by_hash_perm x l : insert_by_hash x l ≡ₚ x :: l.
Proof.
  induction l as [|y l IH]; simpl; [reflexivity|].
  destruct (fst x <=? fst y); [reflexivity|].
  rewrite IH. apply Permutation_swap.
Qed.

Lemma sort_by_hash_perm l : sort_by_hash l ≡ₚ l.
Proof.
  induction l as [|x l IH]; simpl; [reflexivity|].
  rewrite insert_by_hash_perm, IH. reflexivity.
Qed.

Lemma insert_by_hash_sorted x l :
  StronglySorted hash_le l -> StronglySorted hash_le (insert_by_hash x l).
Proof.
  induction 1 as [|y l Hl IH Hy]; simpl.
  - repeat constructor.
  - destruct (fst x <=? fst y) eqn:E.
    + apply Z.leb_le in E. constructor; [constructor; assumption|].
      constructor; [exact E|].
      eapply Forall_impl; [exact Hy|]. unfold hash_le. intros z Hz. simpl in *. lia.
    + apply Z.leb_gt in E. constructor; [exact IH|].
      rewrite insert_by_hash_perm. constructor; [unfold hash_le; lia | exact Hy].
Qed.

Lemma sort_by_hash_sorted l : StronglySorted hash_le (sort_by_hash l).
Proof.
  induction l as [|x l IH]; simpl; [constructor|].
  apply insert_by_hash_sorted, IH.
Qed.

Lemma sorted_distinct_strict l :
  StronglySorted hash_le l -> NoDup (map fst l) -> StronglySorted hash_lt l.
Proof.
  induction 1 as [|x l Hl IH Hx]; intros Hnd; [constructor|].
  simpl in Hnd. apply NoDup_cons in Hnd. destruct Hnd as [Hnotin Hnd].
  constructor; [apply IH, Hnd|].
  apply Forall_forall. intros y Hy.
  pose proof (proj1 (Forall_forall _ _) Hx y Hy) as Hle.
  unfold hash_le in Hle. unfold hash_lt.
  destruct (decide (fst x = fst y)) as [Heq|Hne]; [|lia].
  exfalso. apply Hnotin. rewrite Heq.
  apply (list_elem_of_fmap_2 fst), Hy.
Qed.

Lemma hash_lt_antisymm : AntiSymm (=) hash_lt.
Proof. intros x y H1 H2. unfold hash_lt in *. lia. Qed.

#[local] Existing Instance hash_lt_antisymm.

Lemma sort_by_hash_unique l1 l2 :
  l1 ≡ₚ l2 -> NoDup (map fst l1) -> sort_by_hash l1 = sort_by_hash l2.
Proof.
  intros Hperm Hnd.
  apply (StronglySorted_unique hash_lt).
  - apply sorted_distinct_strict; [apply sort_by_hash_sorted|].
    rewrite sort_by_hash_perm. exact Hnd.
  - apply sorted_distinct_strict; [apply sort_by_hash_sorted|].
    rewrite sort_by_hash_perm, <- Hperm. exact Hnd.
  - rewrite !sort_by_hash_perm. exact Hperm.
Qed.

Lemma relay_hashes_ok (self : Config) cur_day conns hs :
  relay_hashes self cur_day conns = Ok hs ->
  hs = map (hash_or_zero self cur_day) conns /\
  Forall2 (fun c hc => snd hc = c /\ cur_hash self cur_day (conn_peer_info c) = Ok (fst hc))
          conns hs.
Proof.
  revert hs. induction conns as [|c conns IH]; intros hs; cbn [relay_hashes].
  - intros [= <-]. split; [reflexivity | constructor].
  - destruct (cur_hash self cur_day (conn_peer_info c)) as [h|e] eqn:Eh; [|discriminate].
    destruct (relay_hashes self cur_day conns) as [hs'|e]; [|discriminate].
    intros [= <-]. destruct (IH hs' eq_refl) as [-> HF]. split.
    + cbn [map]. unfold hash_or_zero. rewrite Eh. reflexivity.
    + constructor; [split; [reflexivity | exact Eh] | exact HF].
Qed.

Lemma relay_loop_firstn (self : Config) relay_peer num_peers index hashes env st :
  relay_loop relay_peer num_peers index hashes env st =
    relay_each relay_peer (map snd (firstn (Z.to_nat (num_peers - index)) hashes)) env st.
Proof.
  revert index st. induction hashes as [|[h c] rest IH]; intros index st; simpl.
  - rewrite firstn_nil. reflexivity.
  - destruct (num_peers <=? index) eqn:E.
    + apply Z.leb_le in E. replace (Z.to_nat (num_peers - index)) with O by lia.
      reflexivity.
    + apply Z.leb_gt in E.
      replace (Z.to_nat (num_peers - index)) with (S (Z.to_nat (num_peers - (index + 1))))
        by lia.
      simpl. unfold mbind, M_bind, bind.
      destruct (relay_to relay_peer c env st) as [st1 [[]|e]]; [apply IH | reflexivity].
Qed.

Lemma relay_loop_chosen (self : Config) relay_peer num_peers hashes env st :
  relay_loop relay_peer num_peers 0 (sort_by_hash hashes) env st =
    relay_each relay_peer (chosen_neighbours num_peers hashes) env st.
Proof.
  rewrite (relay_loop_firstn self). unfold chosen_neighbours.
  rewrite Z.sub_0_r. reflexivity.
Qed.

(** C5.  Every connected full-node neighbour is given the hash of
    [key ‖ neighbour_key ‖ cur_day]; the list is sorted ascending by that
    hash and the loop relays to its first [num_peers] entries and to no
    other.  With the same key and day, two enumerations of the same
    neighbours whose hashes are pairwise different give exactly the same
    chosen neighbours, in the same order.  [cur_day] is
    [int(time.time()) // 86400]. *)
Theorem relay_choice_is_deterministic
    (self : Config) (cur_day num_peers : Z) (conns1 conns2 : list Connection)
    (hashes1 hashes2 : list (Z * Connection))
    (H1 : relay_hashes self cur_day conns1 = Ok hashes1)
    (H2 : relay_hashes self cur_day conns2 = Ok hashes2)
    (Hsame : conns1 ≡ₚ conns2)
    (Hdistinct : NoDup (map fst hashes1)) :
  Forall2 (fun c hc => snd hc = c /\ cur_hash self cur_day (conn_peer_info c) = Ok (fst hc))
          conns1 hashes1 /\
  StronglySorted (fun x y => fst x <= fst y) (sort_by_hash hashes1) /\
  sort_by_hash hashes1 ≡ₚ hashes1 /\
  (forall relay_peer env st,
      relay_loop relay_peer num_peers 0 (sort_by_hash hashes1) env st =
        relay_each relay_peer (chosen_neighbours num_peers hashes1) env st) /\
  (forall item env st,
      env_fail env (tick st) = None ->
      env_full_node_connections env (tick st) = conns1 ->
      int_of_float (env_time env (S (tick st))) / (24 * 60 * 60) = cur_day ->
      relay_once self item env st =
        relay_each (fst item) (chosen_neighbours (snd item) hashes1) env
          (emit [EvGetFullNodeConnections; EvTime (env_time env (S (tick st)))] st)) /\
  chosen_neighbours num_peers hashes1 = chosen_neighbours num_peers hashes2.
Proof.
  destruct (relay_hashes_ok self cur_day conns1 hashes1 H1) as [E1 F1].
  destruct (relay_hashes_ok self cur_day conns2 hashes2 H2) as [E2 _].
  split; [exact F1|].
  split; [apply sort_by_hash_sorted|].
  split; [apply sort_by_hash_perm|].
  split; [intros; apply (relay_loop_chosen self)|].
  split.
  - intros item env st Hok Hconns Hday.
    unfold relay_once, call, time_time, lift_res, mbind, M_bind, bind.
    rewrite Hok, Hconns. cbn [tick record]. rewrite Hday, H1.
    rewrite (relay_loop_chosen self), !record_emit, emit_app. reflexivity.
  - unfold chosen_neighbours. f_equal. f_equal.
    apply sort_by_hash_unique; [|exact Hdistinct].
    rewrite E1, E2. apply fmap_Permutation, Hsame.
Qed.

Lemma knows_host_known_hosts (pair : string * Z) (h : string)
    (known : gmap (string * Z) (gset string)) :
  knows_host pair h known = true <-> h ∈ known_hosts pair known.
Proof.
  unfold knows_host, known_hosts. destruct (known !! pair) as [hosts|]; simpl.
  - apply bool_decide_eq_true.
  - split; [discriminate | set_solver].
Qed.

Lemma add_host_ensure (pair : string * Z) (h : string)
    (known : gmap (string * Z) (gset string)) :
  add_host pair h (ensure_neighbour pair known) =
    <[pair := known_hosts pair known ∪ {[h]}]> known.
Proof.
  unfold add_host, ensure_neighbour, known_hosts.
  destruct (known !! pair) as [hosts|] eqn:E; simpl.
  - rewrite E. reflexivity.
  - rewrite lookup_insert_eq, insert_insert_eq. reflexivity.
Qed.


(** *** Feelers *)

Lemma poisson_scale_value :
  poisson_scale = (-4503599627369861 # 1267650600228229401496703205376)%Q.
Proof. vm_compute. reflexivity. Qed.

Lemma poisson_uniform_zero : poisson_uniform 0 = 1%Q.
Proof. vm_compute. reflexivity. Qed.

Lemma poisson_uniform_range r :
  0 <= r < 2 ^ 48 -> (0 < poisson_uniform r)%Q /\ (poisson_uniform r <= 1)%Q.
Proof.
  intros Hr. destruct (Z.eq_dec r 0) as [->|Hr0].
  { rewrite poisson_uniform_zero. split; [reflexivity | discriminate]. }
  unfold poisson_uniform. rewrite poisson_scale_value.
  assert (1 <= inject_Z r)%Q as Hq1 by (rewrite <- (Zle_Qle 1); lia).
  assert (inject_Z r <= 281474976710655)%Q as Hq2.
  { change 281474976710655%Q with (inject_Z 281474976710655). rewrite <- Zle_Qle. lia. }
  set (q := inject_Z r) in *.
  set (y := (q * (-4503599627369861 # 1267650600228229401496703205376))%Q).
  destruct (binary64_nonpos y) as [Hp1 Hp2]; [subst y; lra|].
  set (p := binary64 y) in *.
  unfold eps64 in *.
  destruct (binary64_nonneg (p + 1)) as [Hu1 Hu2]; [subst y; lra|].
  unfold eps64 in *. subst y. split; lra.
Qed.



Lemma poisson_schedule_later (now L avg : Q) :
  (0 <= now)%Q -> (now <= inject_Z (2 ^ 51))%Q -> (L <= 0)%Q -> (0 <= avg)%Q ->
  (now < binary64
           (now + binary64
                    (binary64 (binary64 (L * avg) * inject_Z (-1000000)) + (1 # 2))))%Q.
Proof.
  intros Hn1 Hn2 HL Havg.
  change (inject_Z (2 ^ 51)) with 2251799813685248%Q in Hn2.
  change (inject_Z (-1000000)) with (-1000000)%Q.
  assert (L * avg <= 0)%Q as Hz.
  { assert (0 <= (- L) * avg)%Q by (apply Qmult_le_0_compat; lra). lra. }
  destruct (binary64_nonpos (L * avg) Hz) as [_ Ha].
  set (a := binary64 (L * avg)) in *. unfold eps64 in *.
  assert (a <= 0)%Q as Ha0.
  { revert Hz Ha. generalize (L * avg)%Q. intros z Hz Ha. lra. }
  destruct (binary64_nonneg (a * -1000000)) as [Hb _]; [lra|].
  set (b := binary64 (a * -1000000)) in *. unfold eps64 in *.
  destruct (binary64_nonneg (b + (1 # 2))) as [Hc _]; [lra|].
  set (c := binary64 (b + (1 # 2))) in *. unfold eps64 in *.
  destruct (binary64_nonneg (now + c)) as [Hd _]; [lra|].
  set (d := binary64 (now + c)) in *. unfold eps64 in *.
  lra.
Qed.



(** *** Candidates of the discovery loop *)

Lemma max_tries_for_cases (groups : list (list Z)) :
  ((length groups < 3)%nat -> max_tries_for groups = 10) /\
  ((3 <= length groups <= 5)%nat -> max_tries_for groups = 25) /\
  ((5 < length groups)%nat -> max_tries_for groups = 50).
Proof.
  unfold max_tries_for.
  destruct (Z.of_nat (length groups) <? 3) eqn:E1;
    [apply Z.ltb_lt in E1 | apply Z.ltb_ge in E1];
    (destruct (Z.of_nat (length groups) <=? 5) eqn:E2;
       [apply Z.leb_le in E2 | apply Z.leb_gt in E2]);
    repeat split; intros; try reflexivity; lia.
Qed.

Lemma selections_app b evs1 evs2 :
  selections b (evs1 ++ evs2) = selections b evs1 + selections b evs2.
Proof. unfold selections. rewrite filter_app, length_app. lia. Qed.

Lemma selections_nonneg b evs : 0 <= selections b evs.
Proof. unfold selections. lia. Qed.

Section Candidates.
Variables (self : Config) (is_feeler : bool) (groups : list (list Z))
          (connected : list PeerInfo) (now : Q) (max_tries : Z).

Lemma consider_run v tries' hc info env st :
  exists evs r,
    consider is_feeler groups connected now v tries' hc info env st = (emit evs st, r) /\
    (forall b, selections b evs = 0) /\
    (forall ctl v', r = Ok (ctl, v') ->
       ctl = Continue /\ tries v' = tries' /\
       got_peer v' =
         negb (rejected is_feeler groups connected now tries' (tv_local_peerinfo v') info)) /\
    (env_fail env (S (tick st)) = None -> exists v', r = Ok (Continue, v')).
Proof.
  unfold consider, rejected, time_time, call, ret, mbind, M_bind, bind.
  destruct (negb is_feeler && bool_decide (get_group (peer_info info) ∈ groups)) eqn:C1.
  { eexists [], _. rewrite emit_nil. split; [reflexivity|]. split; [reflexivity|].
    split; [intros ctl v' [= <- <-]; cbn; rewrite ?C2, ?C3; auto | eauto]. }
  destruct (bool_decide (peer_info info ∈ connected)) eqn:C2.
  { eexists [], _. rewrite emit_nil. split; [reflexivity|]. split; [reflexivity|].
    split; [intros ctl v' [= <- <-]; cbn; rewrite ?C2, ?C3; auto | eauto]. }
  destruct (Qltb (now - inject_Z (last_try info)) (inject_Z 3600) && (tries' <? 30)) eqn:C3.
  { eexists [], _. rewrite emit_nil. split; [reflexivity|]. split; [reflexivity|].
    split; [intros ctl v' [= <- <-]; cbn; rewrite ?C2, ?C3; auto | eauto]. }
  cbn [tick record orb].
  destruct (Qltb (inject_Z 1800) _ || bool_decide (tv_local_peerinfo v = None)).
  - destruct (env_fail env (S (tick st))) as [e|] eqn:Ef.
    + exists [EvTime (env_time env (tick st)); EvGetLocalPeerinfo], (Raise e).
      cbn [tick record]. rewrite Ef, !record_emit, !emit_app.
      split; [reflexivity|]. split; [reflexivity|].
      split; [discriminate | discriminate].
    + cbn [tick record]. rewrite Ef. cbn [tick record fst snd].
      destruct (bool_decide (env_local_peerinfo env (S (tick st)) = Some (peer_info info)))
        eqn:C4;
        (eexists [EvTime _; EvGetLocalPeerinfo; EvTime _], _;
         rewrite !record_emit, !emit_app;
         split; [reflexivity|]; split; [reflexivity|];
         split; [intros ctl v' [= <- <-]; cbn; rewrite ?C4; auto | eauto]).
  - cbn [tick record fst snd].
    destruct (bool_decide (tv_local_peerinfo v = Some (peer_info info))) eqn:C4;
      (eexists [EvTime _], _; rewrite !record_emit;
       split; [reflexivity|]; split; [reflexivity|];
       split; [intros ctl v' [= <- <-]; cbn; rewrite ?C4; auto | eauto]).
Qed.

Lemma try_once_run v env st :
  exists evs r,
    try_once self is_feeler groups connected now max_tries v env st = (emit evs st, r) /\
    (forall b, 0 <= selections b evs <= 1) /\
    (max_tries < tries v + 1 ->
       (forall b, selections b evs = 0) /\ exists v', r = Ok (Break, v')) /\
    (forall v', r = Ok (Continue, v') ->
       tries v' = tries v + 1 /\ tries v + 1 <= max_tries).
Proof.
  unfold try_once, asyncio_sleep, tell, ask, call, ret, mbind, M_bind, bind.
  cbn [tick record].
  destruct (max_tries <? tries v + 1) eqn:Em;
    [apply Z.ltb_lt in Em | apply Z.ltb_ge in Em]; cbn [tick record].
  { eexists [EvSleep _], _. rewrite record_emit. split; [reflexivity|].
    split; [intros []; cbv; split; discriminate|].
    split; [intros _; split; [intros []; reflexivity | eauto] | discriminate]. }
  destruct (env_fail env (S (tick st))) as [e|]; cbn [tick record].
  { eexists [EvSleep _; EvSelectTriedCollision], _. rewrite !record_emit, emit_app.
    split; [reflexivity|].
    split; [intros []; cbv; split; discriminate|].
    split; [lia | discriminate]. }
  destruct (env_select_tried_collision env (S (tick st))) as [info|];
    cbn [tick record fst snd].
  - match goal with
    | |- context [consider _ _ _ _ ?v0 ?t ?h ?i ?e ?s] =>
        destruct (consider_run v0 t h i e s) as (evs & r & E & Hs & Hr & _)
    end.
    rewrite E, !record_emit, !emit_app.
    eexists _, _. split; [reflexivity|].
    split.
    { intros b. rewrite !selections_app, Hs. destruct b; cbv; split; discriminate. }
    split; [lia|].
    intros v' ->. destruct (Hr _ _ eq_refl) as (_ & Ht & _). lia.
  - destruct (env_fail env (S (S (tick st)))) as [e|]; cbn [tick record fst snd].
    { eexists [EvSleep _; EvSelectTriedCollision; EvSelectPeer _], _.
      rewrite !record_emit, !emit_app. split; [reflexivity|].
      split; [intros []; cbv; split; discriminate|].
      split; [lia | discriminate]. }
    destruct (env_select_peer env (S (S (tick st)))) as [info|]; cbn [tick record fst snd].
    + match goal with
      | |- context [consider _ _ _ _ ?v0 ?t ?h ?i ?e ?s] =>
          destruct (consider_run v0 t h i e s) as (evs & r & E & Hs & Hr & _)
      end.
      rewrite E, !record_emit, !emit_app.
      eexists _, _. split; [reflexivity|].
      split.
      { intros b. rewrite !selections_app, Hs. destruct b; cbv; split; discriminate. }
      split; [lia|].
      intros v' ->. destruct (Hr _ _ eq_refl) as (_ & Ht & _). lia.
    + eexists [EvSleep _; EvSelectTriedCollision; EvSelectPeer _], _.
      rewrite !record_emit, !emit_app. split; [reflexivity|].
      split; [intros []; cbv; split; discriminate|].
      split; [lia | discriminate].
Qed.

Lemma pick_peer_run fuel v env st :
  exists evs r,
    pick_peer self is_feeler groups connected now max_tries fuel v env st
      = (emit evs st, r) /\
    (forall b, selections b evs <= Z.max 0 (max_tries - tries v)) /\
    ((Z.to_nat (max_tries - tries v) < fuel)%nat -> r <> Ok None).
Proof.
  revert v st. induction fuel as [|fuel IH]; intros v st.
  - exists [], (Ok None). rewrite emit_nil. split; [reflexivity|].
    split; [intros b; cbv - [Z.max Z.sub Z.le]; lia | lia].
  - cbn [pick_peer]. unfold is_closed, ret, mbind, M_bind, bind.
    destruct (got_peer v || env_closed env (tick st)).
    { exists [], (Ok (Some v)). rewrite emit_nil. split; [reflexivity|].
      split; [intros b; cbv - [Z.max Z.sub Z.le]; lia | discriminate]. }
    destruct (try_once_run v env st) as (evs1 & r1 & E1 & Hs1 & Hbreak & Hcont).
    rewrite E1. destruct r1 as [[ctl v']|e].
    + destruct ctl; cbn [fst snd].
      * exists evs1, (Ok (Some v')). split; [reflexivity|].
        split; [|discriminate].
        intros b. destruct (Z_lt_le_dec max_tries (tries v + 1)) as [Hgt|Hle].
        -- destruct (Hbreak Hgt) as [H0 _]. rewrite H0. lia.
        -- specialize (Hs1 b). lia.
      * destruct (Hcont v' eq_refl) as [Ht Hle].
        destruct (IH v' (emit evs1 st)) as (evs2 & r2 & E2 & Hs2 & Hfuel).
        rewrite E2, emit_app. exists (evs1 ++ evs2), r2. split; [reflexivity|].
        split.
        -- intros b. rewrite selections_app. specialize (Hs1 b). specialize (Hs2 b). lia.
        -- intros Hlt. apply Hfuel. lia.
    + exists evs1, (Raise e). split; [reflexivity|]. split; [|discriminate].
      intros b. destruct (Z_lt_le_dec max_tries (tries v + 1)) as [Hgt|Hle].
      * destruct (Hbreak Hgt) as [H0 _]. rewrite H0. lia.
      * specialize (Hs1 b). lia.
Qed.

Lemma try_once_collision_candidate v info env st :
  tries v + 1 <= max_tries ->
  env_fail env (S (tick st)) = None ->
  env_select_tried_collision env (S (tick st)) = Some info ->
  try_once self is_feeler groups connected now max_tries v env st =
    consider is_feeler groups connected now v (tries v + 1) true info env
      (emit [EvSleep (Z.min (Z.min 15 (peer_connect_interval self))
                            (1 + Z.of_nat (length groups) * 3));
             EvSelectTriedCollision] st).
Proof.
  intros Hle Hok Hsel.
  unfold try_once, asyncio_sleep, tell, ask, call, ret, mbind, M_bind, bind.
  cbn [tick record].
  apply Z.ltb_ge in Hle. rewrite Hle. cbn [tick record].
  rewrite Hok, Hsel. cbn [tick record fst snd].
  rewrite !record_emit, emit_app. reflexivity.
Qed.

Lemma try_once_selected_candidate v info env st :
  tries v + 1 <= max_tries ->
  env_fail env (S (tick st)) = None ->
  env_fail env (S (S (tick st))) = None ->
  env_select_tried_collision env (S (tick st)) = None ->
  env_select_peer env (S (S (tick st))) = Some info ->
  try_once self is_feeler groups connected now max_tries v env st =
    consider is_feeler groups connected now v (tries v + 1) (has_collision v) info env
      (emit [EvSleep (Z.min (Z.min 15 (peer_connect_interval self))
                            (1 + Z.of_nat (length groups) * 3));
             EvSelectTriedCollision; EvSelectPeer is_feeler] st).
Proof.
  intros Hle Hok Hok' Hnone Hsel.
  unfold try_once, asyncio_sleep, tell, ask, call, ret, mbind, M_bind, bind.
  cbn [tick record].
  apply Z.ltb_ge in Hle. rewrite Hle. cbn [tick record].
  rewrite Hok, Hnone. cbn [tick record fst snd].
  rewrite Hok', Hsel. cbn [tick record fst snd].
  rewrite !record_emit, !emit_app. reflexivity.
Qed.

End Candidates.

(** The bound on the tries and the flag [got_peer].  The inner loop of a
    discovery iteration works with
    [max_tries] = 10 when fewer than 3 network groups are represented among
    the outbound connections, 25 when there are 3 to 5, and 50 otherwise.
    Run with the fuel the iteration gives it, the loop comes to an end and
    has asked for a candidate at most [max_tries] times (from the collision
    list, and from [select_peer]).  In a pass that is within [max_tries],
    the candidate that was selected goes through the checks of [consider],
    and it is accepted ([got_peer]) exactly when it is not rejected: it is
    rejected when it is a non-feeler whose group is already represented,
    when it is already connected, when its [last_try] was within the last
    hour and fewer than 30 tries have been made, or when it equals the local
    endpoint.  (What becomes of [addr] when a candidate is rejected is
    not part of this statement.) *)
Theorem discovery_tries_and_rejections
    (self : Config) (is_feeler : bool) (groups : list (list Z))
    (connected : list PeerInfo) (now : Q) (v : TryVars) (env : Env) (st : St)
    (Hstart : tries v = 0) :
  let max_tries := max_tries_for groups in
  ((length groups < 3)%nat -> max_tries = 10) /\
  ((3 <= length groups <= 5)%nat -> max_tries = 25) /\
  ((5 < length groups)%nat -> max_tries = 50) /\
  (exists evs r,
     pick_peer self is_feeler groups connected now max_tries (S (Z.to_nat max_tries))
               v env st = (emit evs st, r) /\
     (forall from_collisions, selections from_collisions evs <= max_tries) /\
     r <> Ok None) /\
  (forall v1 info env1 st1,
     tries v1 + 1 <= max_tries ->
     env_fail env1 (S (tick st1)) = None ->
     env_select_tried_collision env1 (S (tick st1)) = Some info ->
     try_once self is_feeler groups connected now max_tries v1 env1 st1 =
       consider is_feeler groups connected now v1 (tries v1 + 1) true info env1
         (emit [EvSleep (Z.min (Z.min 15 (peer_connect_interval self))
                               (1 + Z.of_nat (length groups) * 3));
                EvSelectTriedCollision] st1)) /\
  (forall v1 info env1 st1,
     tries v1 + 1 <= max_tries ->
     env_fail env1 (S (tick st1)) = None ->
     env_fail env1 (S (S (tick st1))) = None ->
     env_select_tried_collision env1 (S (tick st1)) = None ->
     env_select_peer env1 (S (S (tick st1))) = Some info ->
     try_once self is_feeler groups connected now max_tries v1 env1 st1 =
       consider is_feeler groups connected now v1 (tries v1 + 1) (has_collision v1) info
         env1
         (emit [EvSleep (Z.min (Z.min 15 (peer_connect_interval self))
                               (1 + Z.of_nat (length groups) * 3));
                EvSelectTriedCollision; EvSelectPeer is_feeler] st1)) /\
  (forall v1 tries1 collision1 info env1 st1,
     (env_fail env1 (S (tick st1)) = None ->
      exists v', snd (consider is_feeler groups connected now v1 tries1 collision1 info
                        env1 st1) = Ok (Continue, v')) /\
     (forall ctl v',
        snd (consider is_feeler groups connected now v1 tries1 collision1 info env1 st1)
          = Ok (ctl, v') ->
        ctl = Continue /\
        got_peer v' =
          negb (rejected is_feeler groups connected now tries1 (tv_local_peerinfo v') info))).
Proof.
  intros max_tries.
  destruct (max_tries_for_cases groups) as (M1 & M2 & M3).
  split; [exact M1|]. split; [exact M2|]. split; [exact M3|].
  assert (0 <= max_tries) as Hpos.
  { subst max_tries. unfold max_tries_for.
    destruct (_ <? 3); [lia|]. destruct (_ <=? 5); lia. }
  split; [|split; [|split]].
  - destruct (pick_peer_run self is_feeler groups connected now max_tries
                (S (Z.to_nat max_tries)) v env st) as (evs & r & E & Hs & Hfuel).
    exists evs, r. split; [exact E|]. split.
    + intros b. specialize (Hs b). rewrite Hstart in Hs. lia.
    + apply Hfuel. rewrite Hstart. lia.
  - intros. apply try_once_collision_candidate; assumption.
  - intros. apply try_once_selected_candidate; assumption.
  - intros v1 tries1 collision1 info env1 st1.
    destruct (consider_run is_feeler groups connected now v1 tries1 collision1 info env1 st1)
      as (evs & r & E & _ & Hr & Hok).
    rewrite E. cbn [snd]. split.
    + intros Hf. apply Hok, Hf.
    + intros ctl v' ->. destruct (Hr _ _ eq_refl) as (Hc & _ & Hg). split; assumption.
Qed.


(** *** The rate limit of [update_connection_time] *)

Ltac qlra := unfold inject_Z in *; lra.


Lemma timed_connects_app tr evs :
  starts_with_connect evs = false ->
  timed_connects (tr ++ evs) = timed_connects tr ++ timed_connects evs.
Proof.
  intros Hevs. induction tr as [|a tr IH]; [reflexivity|].
  destruct a; try (simpl; exact IH).
  cbn [app timed_connects].
  destruct tr as [|e tr'].
  - cbn [app timed_connects]. destruct evs as [|e evs]; [reflexivity|].
    destruct e; try reflexivity. discriminate.
  - cbn [app] in *. destruct e; try exact IH.
    rewrite IH. reflexivity.
Qed.

Lemma update_connection_time_first (p : PeerInfo) env st :
  connection_time_pretest st !! host p = None ->
  Qltb (inject_Z 60) (env_time env (S (tick st)) - env_time env (tick st))%Q = false ->
  update_connection_time p env st =
    (set_pretest (host p) (env_time env (tick st))
       (emit [EvTime (env_time env (tick st)); EvTime (env_time env (S (tick st)))] st),
     Ok tt).
Proof.
  intros Hnone Hclose.
  unfold update_connection_time, get, modify, time_time, ret, mbind, M_bind, bind.
  rewrite Hnone. cbn [tick record set_pretest connection_time_pretest].
  rewrite lookup_insert_eq, Hclose.
  unfold set_pretest, emit, record. cbn. rewrite <- app_assoc.
  repeat f_equal. lia.
Qed.

Lemma update_connection_time_first_connects (p : PeerInfo) env st :
  connection_time_pretest st !! host p = None ->
  env_fail env (S (S (tick st))) = None ->
  Qltb (inject_Z 60) (env_time env (S (tick st)) - env_time env (tick st))%Q = true ->
  update_connection_time p env st =
    (set_pretest (host p) (env_time env (S (S (S (tick st)))))
       (set_pretest (host p) (env_time env (tick st))
          (emit [EvTime (env_time env (tick st)); EvTime (env_time env (S (tick st)));
                 EvConnect p; EvTime (env_time env (S (S (S (tick st)))))] st)),
     Ok tt).
Proof.
  intros Hnone Hok Hfar.
  unfold update_connection_time, get, modify, time_time, call_, call, ret,
    mbind, M_bind, bind.
  rewrite Hnone. cbn [tick record set_pretest connection_time_pretest].
  rewrite lookup_insert_eq, Hfar. cbn [tick record set_pretest]. rewrite Hok.
  unfold set_pretest, emit, record. cbn. repeat rewrite <- app_assoc.
  repeat f_equal. lia.
Qed.

Lemma update_connection_time_later (p : PeerInfo) recorded env st :
  connection_time_pretest st !! host p = Some recorded ->
  Qltb (inject_Z 60) (env_time env (tick st) - recorded)%Q = false ->
  update_connection_time p env st = (emit [EvTime (env_time env (tick st))] st, Ok tt).
Proof.
  intros Hsome Hclose.
  unfold update_connection_time, get, modify, time_time, ret, mbind, M_bind, bind.
  rewrite Hsome. cbn [tick record connection_time_pretest].
  rewrite Hsome, Hclose, record_emit. reflexivity.
Qed.

Lemma update_connection_time_later_connects (p : PeerInfo) recorded env st :
  connection_time_pretest st !! host p = Some recorded ->
  env_fail env (S (tick st)) = None ->
  Qltb (inject_Z 60) (env_time env (tick st) - recorded)%Q = true ->
  update_connection_time p env st =
    (set_pretest (host p) (env_time env (S (S (tick st))))
       (emit [EvTime (env_time env (tick st)); EvConnect p;
              EvTime (env_time env (S (S (tick st))))] st),
     Ok tt).
Proof.
  intros Hsome Hok Hfar.
  unfold update_connection_time, get, modify, time_time, call_, call, ret,
    mbind, M_bind, bind.
  rewrite Hsome. cbn [tick record connection_time_pretest].
  rewrite Hsome, Hfar. cbn [tick record]. rewrite Hok.
  unfold set_pretest, emit, record. cbn. repeat rewrite <- app_assoc.
  repeat f_equal. lia.
Qed.

Section RateLimit.
Variable env : Env.
Hypothesis Hmono : forall i j, (i <= j)%nat -> (env_time env i <= env_time env j)%Q.
Hypothesis Hok : forall k, env_fail env k = None.

Lemma pretest_inv_neutral st st' evs :
  pretest_inv env st ->
  trace st' = trace st ++ evs ->
  timed_connects evs = [] ->
  starts_with_connect evs = false ->
  connection_time_pretest st' = connection_time_pretest st ->
  (tick st <= tick st')%nat ->
  pretest_inv env st'.
Proof.
  intros (Ha & Hb & Hc) Htr Hnone Hhead Hpre Htick.
  unfold pretest_inv.
  rewrite Htr, Hpre, (timed_connects_app _ _ Hhead), Hnone, app_nil_r.
  split; [exact Ha|]. split; [|exact Hc].
  intros h recorded Hl n Hn. apply (Hb h recorded Hl). lia.
Qed.

Lemma pretest_inv_update (p : PeerInfo) st :
  pretest_inv env st ->
  pretest_inv env (fst (update_connection_time p env st)) /\
  snd (update_connection_time p env st) = Ok tt.
Proof.
  intros (Ha & Hb & Hc).
  destruct (connection_time_pretest st !! host p) as [recorded|] eqn:Hl.
  - destruct (Qltb (inject_Z 60) (env_time env (tick st) - recorded)%Q) eqn:Hq.
    + rewrite (update_connection_time_later_connects p recorded env st Hl (Hok _) Hq).
      split; [|reflexivity]. cbn [fst]. apply Qltb_lt in Hq.
      unfold pretest_inv. cbn [trace set_pretest emit connection_time_pretest tick length].
      rewrite timed_connects_app by reflexivity. cbn [timed_connects].
      split; [|split].
      * intros h t Hin. apply elem_of_app in Hin. destruct Hin as [Hin|Hin].
        -- destruct (Ha h t Hin) as (r & Hr & Hle).
           destruct (decide (h = host p)) as [->|Hne].
           ++ rewrite lookup_insert_eq. eexists. split; [reflexivity|].
              rewrite Hl in Hr. injection Hr as <-.
              pose proof (Hb _ _ Hl (S (S (tick st))) ltac:(lia)). qlra.
           ++ rewrite lookup_insert_ne by congruence. eauto.
        -- apply list_elem_of_singleton in Hin. injection Hin as -> ->.
           rewrite lookup_insert_eq. eexists. split; [reflexivity|].
           apply Hmono. lia.
      * intros h r Hr n Hn. destruct (decide (h = host p)) as [->|Hne].
        -- rewrite lookup_insert_eq in Hr. injection Hr as <-. apply Hmono. lia.
        -- rewrite lookup_insert_ne in Hr by congruence. apply (Hb h r Hr). lia.
      * apply StronglySorted_app_2; [|exact Hc | repeat constructor].
        intros [h1 t1] x2 Hin1 Hin2. apply list_elem_of_singleton in Hin2. subst x2.
        unfold apart. cbn [fst snd]. intros ->.
        destruct (Ha _ _ Hin1) as (r & Hr & Hle).
        rewrite Hl in Hr. injection Hr as <-. qlra.
    + rewrite (update_connection_time_later p recorded env st Hl Hq).
      split; [|reflexivity]. cbn [fst].
      apply (pretest_inv_neutral st _ [EvTime (env_time env (tick st))]);
        [repeat split; assumption | reflexivity | reflexivity | reflexivity | reflexivity|].
      cbn. lia.
  - assert (forall h t, (h, t) ∈ timed_connects (trace st) -> h <> host p) as Hfresh.
    { intros h t Hin ->. destruct (Ha _ _ Hin) as (r & Hr & _). congruence. }
    destruct (Qltb (inject_Z 60) (env_time env (S (tick st)) - env_time env (tick st))%Q)
      eqn:Hq.
    + rewrite (update_connection_time_first_connects p env st Hl (Hok _) Hq).
      split; [|reflexivity]. cbn [fst].
      unfold pretest_inv. cbn [trace set_pretest emit connection_time_pretest tick length].
      rewrite timed_connects_app by reflexivity. cbn [timed_connects].
      split; [|split].
      * intros h t Hin. apply elem_of_app in Hin. destruct Hin as [Hin|Hin].
        -- pose proof (Hfresh _ _ Hin) as Hne.
           rewrite !lookup_insert_ne by congruence. apply (Ha h t Hin).
        -- apply list_elem_of_singleton in Hin. injection Hin as -> ->.
           rewrite lookup_insert_eq. eexists. split; [reflexivity|].
           apply Hmono. lia.
      * intros h r Hr n Hn. destruct (decide (h = host p)) as [->|Hne].
        -- rewrite lookup_insert_eq in Hr. injection Hr as <-. apply Hmono. lia.
        -- rewrite !lookup_insert_ne in Hr by congruence. apply (Hb h r Hr). lia.
      * apply StronglySorted_app_2; [|exact Hc | repeat constructor].
        intros [h1 t1] x2 Hin1 Hin2. apply list_elem_of_singleton in Hin2. subst x2.
        unfold apart. cbn [fst snd]. intros ->.
        exfalso. apply (Hfresh _ _ Hin1). reflexivity.
    + rewrite (update_connection_time_first p env st Hl Hq).
      split; [|reflexivity]. cbn [fst].
      unfold pretest_inv. cbn [trace set_pretest emit connection_time_pretest tick length].
      rewrite timed_connects_app by reflexivity. cbn [timed_connects].
      rewrite app_nil_r. split; [|split; [|exact Hc]].
      * intros h t Hin. pose proof (Hfresh _ _ Hin) as Hne.
        rewrite lookup_insert_ne by congruence. apply (Ha h t Hin).
      * intros h r Hr n Hn. destruct (decide (h = host p)) as [->|Hne].
        -- rewrite lookup_insert_eq in Hr. injection Hr as <-. apply Hmono. lia.
        -- rewrite lookup_insert_ne in Hr by congruence. apply (Hb h r Hr). lia.
Qed.

Lemma pretest_inv_message item st :
  pretest_inv env st ->
  pretest_inv env (fst (process_message_guarded item env st)).
Proof.
  intros Hinv. destruct item as [msg [p|]];
    unfold process_message_guarded, try_except, process_message; cbn [fst snd];
    [|exact Hinv].
  destruct (port p =? 0); [exact Hinv|].
  destruct (String.eqb msg "make_tried").
  { unfold call_, call, mbind, M_bind, bind. rewrite Hok. cbn [tick record].
    rewrite Hok. cbn [fst].
    apply (pretest_inv_neutral st _ [EvMarkGood p true; EvConnect p]);
      [exact Hinv | cbn; rewrite <- app_assoc; reflexivity | reflexivity | reflexivity
      | reflexivity | cbn; lia]. }
  destruct (String.eqb msg "mark_attempted").
  { unfold call_, call. rewrite Hok. cbn [fst].
    apply (pretest_inv_neutral st _ [EvAttempt p true]);
      [exact Hinv | reflexivity | reflexivity | reflexivity | reflexivity | cbn; lia]. }
  destruct (String.eqb msg "mark_attempted_soft").
  { unfold call_, call. rewrite Hok. cbn [fst].
    apply (pretest_inv_neutral st _ [EvAttempt p false]);
      [exact Hinv | reflexivity | reflexivity | reflexivity | reflexivity | cbn; lia]. }
  destruct (String.eqb msg "update_connection_time").
  { destruct (pretest_inv_update p st Hinv) as [Hinv' Hres].
    destruct (update_connection_time p env st) as [st' r].
    cbn [fst snd] in *. subst r. exact Hinv'. }
  destruct (String.eqb msg "new_inbound_connection"); [|exact Hinv].
  unfold new_inbound_connection, time_time, call_, call, modify, mbind, M_bind, bind.
  cbn [tick record]. rewrite Hok. cbn [tick record]. rewrite Hok. cbn [fst].
  eapply (pretest_inv_neutral st _ [EvTime _; EvAddToNewTable _ _ _; EvMarkGood _ _]);
    [exact Hinv | cbn; repeat rewrite <- app_assoc; reflexivity | reflexivity | reflexivity
    | reflexivity | cbn; lia].
Qed.

Lemma pretest_inv_loop items st :
  pretest_inv env st ->
  pretest_inv env (fst (_process_messages items env st)).
Proof.
  revert st. induction items as [|item rest IH]; intros st Hinv; [exact Hinv|].
  unfold _process_messages in *. cbn [while_not_closed_get].
  unfold is_closed, mbind, M_bind, bind.
  destruct (env_closed env (tick st)); [exact Hinv|].
  pose proof (pretest_inv_message item st Hinv) as Hstep.
  destruct (process_message_guarded item env st) as [st' [[]|e]] eqn:E.
  - apply IH, Hstep.
  - exact Hstep.
Qed.

Lemma pretest_inv_start st :
  trace st = [] -> connection_time_pretest st = ∅ -> pretest_inv env st.
Proof.
  intros Htr Hpre. unfold pretest_inv. rewrite Htr, Hpre. cbn.
  split; [|split].
  - intros h t Hin. apply elem_of_nil in Hin. contradiction.
  - intros h r Hr. rewrite lookup_empty in Hr. discriminate.
  - constructor.
Qed.

End RateLimit.

Lemma sorted_apart (l l1 l2 l3 : list (string * Q)) (x y : string * Q) :
  StronglySorted apart l -> l = l1 ++ x :: l2 ++ y :: l3 -> apart x y.
Proof.
  intros Hs ->. apply StronglySorted_app_1_r in Hs.
  apply StronglySorted_cons in Hs. destruct Hs as [Hall _].
  apply (proj1 (Forall_forall _ _) Hall). apply elem_of_app. right. apply elem_of_cons. auto.
Qed.

(** C10.  The handler of [update_connection_time] keeps, per host, the time
    it recorded last.  The first event for a host records the clock and does
    not call [connect] (the handler reads the clock twice in a row, and the
    two readings are no more than 60 seconds apart).  A later event for the
    host calls [connect] exactly when the clock is more than 60 seconds past
    the recorded time, and then records the clock anew; otherwise it changes
    nothing.  Hence, over a whole run of [_process_messages] that starts
    with an empty table, two calls of [connect] made by this handler for the
    same host are more than 60 seconds apart.  The clock is taken to be
    monotone and the calls to the address manager to return. *)
Theorem update_connection_time_is_rate_limited
    (env : Env)
    (Hmono : forall i j, (i <= j)%nat -> (env_time env i <= env_time env j)%Q)
    (Hok : forall k, env_fail env k = None) :
  (forall p st,
     port p <> 0 ->
     process_message ("update_connection_time", Some p) env st
       = update_connection_time p env st) /\
  (forall p st,
     connection_time_pretest st !! host p = None ->
     (env_time env (S (tick st)) - env_time env (tick st) <= inject_Z 60)%Q ->
     update_connection_time p env st =
       (set_pretest (host p) (env_time env (tick st))
          (emit [EvTime (env_time env (tick st)); EvTime (env_time env (S (tick st)))] st),
        Ok tt)) /\
  (forall p st recorded,
     connection_time_pretest st !! host p = Some recorded ->
     ((inject_Z 60 < env_time env (tick st) - recorded)%Q ->
      update_connection_time p env st =
        (set_pretest (host p) (env_time env (S (S (tick st))))
           (emit [EvTime (env_time env (tick st)); EvConnect p;
                  EvTime (env_time env (S (S (tick st))))] st),
         Ok tt)) /\
     ((env_time env (tick st) - recorded <= inject_Z 60)%Q ->
      update_connection_time p env st =
        (emit [EvTime (env_time env (tick st))] st, Ok tt))) /\
  (forall items st,
     trace st = [] ->
     connection_time_pretest st = ∅ ->
     forall l1 l2 l3 h t1 t2,
       timed_connects (trace (fst (_process_messages items env st)))
         = l1 ++ (h, t1) :: l2 ++ (h, t2) :: l3 ->
       (inject_Z 60 < t2 - t1)%Q).
Proof.
  split; [|split; [|split]].
  - intros p st Hport. unfold process_message. cbn [fst snd].
    apply Z.eqb_neq in Hport. rewrite Hport. reflexivity.
  - intros p st Hnone Hclose.
    apply update_connection_time_first; [exact Hnone | apply Qltb_ge, Hclose].
  - intros p st recorded Hsome. split.
    + intros Hfar. apply (update_connection_time_later_connects p recorded);
        [exact Hsome | apply Hok | apply Qltb_lt, Hfar].
    + intros Hclose. apply (update_connection_time_later p recorded);
        [exact Hsome | apply Qltb_ge, Hclose].
  - intros items st Htr Hpre l1 l2 l3 h t1 t2 Hsplit.
    pose proof (pretest_inv_loop env Hmono Hok items st
                  (pretest_inv_start env st Htr Hpre)) as (_ & _ & Hsorted).
    apply (sorted_apart _ _ _ _ _ _ Hsorted Hsplit). reflexivity.
Qed.

End Properties.









(** * Runs on the concrete world *)

(** One iteration of the discovery loop of a node that has no outbound
    connection yet: the address manager offers [peer_b], which passes the
    checks, and the node dials it. *)
Example connect_once_dials_the_selected_peer :
  trace (fst (connect_once toy_self (mkConnectVars 0%Q false None 0)
                (with_select_peer (fun _ => Some (mkExtendedPeerInfo peer_b 0)) quiet_env)
                fresh_state)) =
    [EvSize; EvGetFullNodePeerinfos; EvGetOutboundConnections;
     EvCountOutboundConnections; EvResolveTriedCollisions;
     EvTime (inject_Z 1700000000); EvSleep 1; EvSelectTriedCollision;
     EvSelectPeer false; EvTime (inject_Z 1700000000); EvGetLocalPeerinfo;
     EvTime (inject_Z 1700000000); EvCountOutboundConnections;
     EvCountOutboundConnections; EvStartClient peer_b false (Some false); EvSleep 5].
Proof. reflexivity. Qed.

(** A feeler iteration in which the collision list offers [peer_b], tried
    1000 seconds ago, and then nothing more is on offer.  The candidate does
    not pass the [last_try] test and the loop goes on to a second pass, which
    breaks on the empty selection; [addr] still holds the candidate, and it
    is dialled after the loop. *)
Example candidate_left_in_addr_is_dialled :
  trace (fst (connect_once one_peer_self (mkConnectVars 0%Q false None 0)
                (with_select_tried_collision
                   (fun n => if Nat.eqb n 10
                             then Some (mkExtendedPeerInfo peer_b 1699999000)
                             else None)
                   satisfied_env)
                fresh_state)) =
    [EvSize; EvGetFullNodePeerinfos; EvGetOutboundConnections;
     EvCountOutboundConnections; EvTime (inject_Z 1700000000);
     EvTime (inject_Z 1700000000); EvRandom; EvResolveTriedCollisions;
     EvTime (inject_Z 1700000000); EvSleep 4; EvSelectTriedCollision;
     EvSleep 4; EvSelectTriedCollision; EvSelectPeer true;
     EvCountOutboundConnections; EvCountOutboundConnections;
     EvStartClient peer_b false (Some true); EvSleep 10].
Proof. reflexivity. Qed.

(** One item of the relay queue with three neighbours: the two with the
    smallest hashes are [conn_a], which knows the host already, and
    [conn_b], which gets the message. *)
Example address_relay_reaches_the_first_two :
  trace (fst (_address_relay toy_self [(relayed_peer, 2)]
                (with_full_node_connections [conn_c; conn_b; conn_a] quiet_env)
                known_state)) =
    [EvGetFullNodeConnections; EvTime (inject_Z 1700000000);
     EvLockAcquire PeersLock; EvLockRelease PeersLock;
     EvLockAcquire PeersLock; EvLockRelease PeersLock;
     EvPushMessage (respond_peers_message FULL_NODE [relayed_peer] SPECIFIC (Some 22))].
Proof. reflexivity. Qed.

(** C4 on a concrete list: the premise holds in the quiet world. *)
Lemma full_node_peers_stored_with_sanitized_timestamp_witness :
  (forall n, env_time quiet_env n = inject_Z 1700000000) /\
  exists reads,
    Forall (fun ev => is_clock_read ev = true) reads /\
    trace (fst (_respond_peers_common
                  [mkTimestampedPeerInfo "10.0.0.1" 8444 5;
                   mkTimestampedPeerInfo "10.0.0.2" 8444 1700000600]
                  (mkPeerInfo "10.9.9.9" 8444) true quiet_env fresh_state)) =
      trace fresh_state ++ reads ++
      [EvAddToNewTable
         (map (sanitized (inject_Z 1700000000))
              [mkTimestampedPeerInfo "10.0.0.1" 8444 5;
               mkTimestampedPeerInfo "10.0.0.2" 8444 1700000600])
         (Some (mkPeerInfo "10.9.9.9" 8444)) 7200].
Proof.
  split; [reflexivity|].
  apply (full_node_peers_stored_with_sanitized_timestamp
           (Ext := toy_externals) _ _ quiet_env fresh_state (inject_Z 1700000000)).
  reflexivity.
Defined.

(** C4 as the specification words it fails: a peer announced by a full node
    with a timestamp of exactly 10^8 is handed to the address manager with
    that timestamp, not with [now - 5 days] (here 1699568000). *)
Lemma timestamp_of_exactly_1e8_is_kept :
  trace (fst (_respond_peers_common
                [mkTimestampedPeerInfo "10.0.0.1" 8444 100000000]
                (mkPeerInfo "10.9.9.9" 8444) true quiet_env fresh_state)) =
    [EvTime (inject_Z 1700000000);
     EvAddToNewTable [mkTimestampedPeerInfo "10.0.0.1" 8444 100000000]
                     (Some (mkPeerInfo "10.9.9.9" 8444)) 7200] /\
  int_of_float (inject_Z 1700000000 - inject_Z (5 * 24 * 60 * 60))%Q = 1699568000 /\
  100000000 <> 1699568000.
Proof. split; [reflexivity|]. split; [reflexivity|]. discriminate. Qed.



(** C8 on the code.  A candidate that the inner loop turns down is not
    always dropped.  The tests for the network group and for the connected
    peers reset [addr] before they [continue]; the test for a recent
    [last_try] (with the comment that recently tried nodes are considered
    only after 30 failed attempts) and the test for the local endpoint do
    not.  When the next pass finds nothing to select, the loop breaks with
    the candidate still in [addr], and the iteration dials it.  The node
    here wants eight outbound connections and has none; the address manager
    offers [peer_b] in the first pass and nothing in the second.  With
    [peer_b] tried 1000 seconds ago the node dials it on its first try; with
    [peer_b] being the node's own endpoint the node dials itself; with
    [peer_b] already connected nothing is dialled. *)
Theorem turned_down_candidate_is_dialled :
  let v := mkConnectVars 0%Q false None 0 in
  trace (fst (connect_once toy_self v (offering_once 1699999000) fresh_state)) =
    [EvSize; EvGetFullNodePeerinfos; EvGetOutboundConnections;
     EvCountOutboundConnections; EvResolveTriedCollisions;
     EvTime (inject_Z 1700000000);
     EvSleep 1; EvSelectTriedCollision; EvSelectPeer false;
     EvSleep 1; EvSelectTriedCollision; EvSelectPeer false;
     EvCountOutboundConnections; EvCountOutboundConnections;
     EvStartClient peer_b false (Some false); EvSleep 5] /\
  trace (fst (connect_once toy_self v
                (with_local_peerinfo (Some peer_b) (offering_once 0)) fresh_state)) =
    [EvSize; EvGetFullNodePeerinfos; EvGetOutboundConnections;
     EvCountOutboundConnections; EvResolveTriedCollisions;
     EvTime (inject_Z 1700000000);
     EvSleep 1; EvSelectTriedCollision; EvSelectPeer false;
     EvTime (inject_Z 1700000000); EvGetLocalPeerinfo; EvTime (inject_Z 1700000000);
     EvSleep 1; EvSelectTriedCollision; EvSelectPeer false;
     EvCountOutboundConnections; EvCountOutboundConnections;
     EvStartClient peer_b false (Some false); EvSleep 5] /\
  dials (trace (fst (connect_once toy_self v
                       (with_full_node_connections [conn_b] (offering_once 0))
                       fresh_state))) = [] /\
  (inject_Z 1700000000 - inject_Z 1699999000 < inject_Z 3600)%Q.
Proof. repeat split. Qed.

(** C3 on the code.  [_periodically_serialize] and [_connect_to_peers] have no
    [try] around their bodies.  When the write to the store fails in the
    first round, the serialize loop ends with that exception although two
    more rounds were to come, and nothing is logged; when the address
    manager fails on [size()], the connect loop ends the same way. *)
Theorem serialize_and_connect_loops_die_on_first_exception :
  _periodically_serialize 3 (failing_at 3 "database is locked") running_state
    = (emit (serialize_round quiet_env (Some AddressManager_new) 0) running_state,
       Raise "database is locked") /\
  _connect_to_peers toy_self 3 (failing_at 4 "size failed") running_state
    = (emit [EvTime (inject_Z 1700000000); EvRandom; EvGetLocalPeerinfo;
             EvTime (inject_Z 1700000000); EvSize] running_state,
       Raise "size failed").
Proof. repeat split. Qed.

(** C2 as the specification words it fails: closing the node writes nothing
    to the store.  [close] sets the flag, cancels the five tasks and closes
    the database connection. *)
Lemma close_does_not_serialize :
  trace (fst (close quiet_env running_state))
    = [EvSetClosed; EvCancel ConnectPeersTask; EvCancel ProcessMessagesTask;
       EvCancel SerializeTask; EvDbClose;
       EvCancel SelfAdvertiseTask; EvCancel AddressRelayTask] /\
  filter is_serialize (trace (fst (close quiet_env running_state))) = [] /\
  filter is_serialize (trace (fst (_close_common quiet_env running_state))) = [].
Proof. repeat split. Qed.


(** C2 on a concrete node: two rounds of the serialize loop, and a start
    from a store that holds snapshot 7. *)
Lemma address_manager_snapshots_witness :
  (forall k, env_closed restoring_env k = false) /\
  (forall k, env_fail restoring_env k = None) /\
  _periodically_serialize 2 restoring_env running_state =
    (emit (serialize_rounds restoring_env (Some AddressManager_new) 0 2) running_state,
     Ok (StillRunning, tt)) /\
  address_manager (fst (initialize_address_manager restoring_env running_state)) =
    Some (AddressManager_restored 7).
Proof.
  pose proof (address_manager_snapshots 2 restoring_env running_state
                (fun _ => eq_refl) (fun _ => eq_refl)) as (H1 & _ & _ & _ & H5).
  split; [reflexivity|]. split; [reflexivity|]. split; [exact H1|].
  apply (H5 eq_refl).
Defined.

(** C5 on three neighbours listed in two different orders. *)
Lemma relay_choice_is_deterministic_witness :
  relay_hashes toy_self 19675 [conn_a; conn_b; conn_c]
    = Ok [(150, conn_a); (151, conn_b); (152, conn_c)] /\
  relay_hashes toy_self 19675 [conn_c; conn_a; conn_b]
    = Ok [(152, conn_c); (150, conn_a); (151, conn_b)] /\
  chosen_neighbours 2 [(150, conn_a); (151, conn_b); (152, conn_c)] =
    chosen_neighbours 2 [(152, conn_c); (150, conn_a); (151, conn_b)].
Proof.
  split; [reflexivity|]. split; [reflexivity|].
  refine (proj2 (proj2 (proj2 (proj2 (proj2
    (relay_choice_is_deterministic toy_self 19675 2
       [conn_a; conn_b; conn_c] [conn_c; conn_a; conn_b]
       [(150, conn_a); (151, conn_b); (152, conn_c)]
       [(152, conn_c); (150, conn_a); (151, conn_b)]
       eq_refl eq_refl _ _)))))).
  - symmetry. apply (Permutation_cons_append [conn_a; conn_b] conn_c).
  - apply (bool_decide_unpack _). vm_compute. exact I.
Defined.


(** The inner loop on a node without outbound connections: it ends. *)
Lemma discovery_tries_and_rejections_witness :
  tries first_try = 0 /\
  max_tries_for [] = 10 /\
  exists evs r,
    pick_peer toy_self false [] [] (inject_Z 1700000000) (max_tries_for [])
              (S (Z.to_nat (max_tries_for []))) first_try quiet_env fresh_state
      = (emit evs fresh_state, r) /\
    (forall from_collisions, selections from_collisions evs <= max_tries_for []) /\
    r <> Ok None.
Proof.
  pose proof (discovery_tries_and_rejections toy_self false [] []
                (inject_Z 1700000000) first_try quiet_env fresh_state eq_refl)
    as (H1 & _ & _ & H4 & _).
  split; [reflexivity|]. split; [apply H1; cbn; lia|]. exact H4.
Defined.

(** C10 on a clock that advances by ten seconds per interaction and twenty
    events for the same host. *)
Lemma update_connection_time_is_rate_limited_witness :
  (forall i j, (i <= j)%nat -> (env_time ticking_env i <= env_time ticking_env j)%Q) /\
  (forall k, env_fail ticking_env k = None) /\
  update_connection_time peer_a ticking_env fresh_state =
    (set_pretest (host peer_a) (inject_Z 1700000000)
       (emit [EvTime (inject_Z 1700000000); EvTime (inject_Z 1700000010)] fresh_state),
     Ok tt) /\
  timed_connects
    (trace (fst (_process_messages
                   (replicate 20 ("update_connection_time"%string, Some peer_a))
                   ticking_env fresh_state)))
    = [("10.0.0.1"%string, inject_Z 1700000070); ("10.0.0.1"%string, inject_Z 1700000160)] /\
  (inject_Z 60 < inject_Z 1700000160 - inject_Z 1700000070)%Q.
Proof.
  assert (forall i j, (i <= j)%nat ->
            (env_time ticking_env i <= env_time ticking_env j)%Q) as Hmono.
  { intros i j Hij. cbn. rewrite <- Zle_Qle. lia. }
  pose proof (update_connection_time_is_rate_limited ticking_env Hmono (fun _ => eq_refl))
    as (_ & H2 & _ & H4).
  split; [exact Hmono|]. split; [reflexivity|]. split; [|split].
  - apply (H2 peer_a fresh_state); [reflexivity | cbn; discriminate].
  - reflexivity.
  - apply (H4 (replicate 20 ("update_connection_time"%string, Some peer_a)) fresh_state
              eq_refl eq_refl [] [] [] "10.0.0.1"%string).
    reflexivity.
Defined.

(** * Further properties of the code *)

Set Warnings "-clear-no-such-hyp".

Section MoreProperties.
Context `{Ext : Externals}.

(** *** Ingest keeps the peers it is given *)

Lemma adjust_timestamp_shape is_full_node peer env st :
  exists reads stored,
    adjust_timestamp is_full_node peer env st = (emit reads st, Ok stored) /\
    Forall (fun ev => is_clock_read ev = true) reads /\
    tp_host stored = tp_host peer /\ tp_port stored = tp_port peer.
Proof.
  unfold adjust_timestamp, mbind, M_bind, bind, time_time, ret.
  destruct (timestamp peer <? 100000000); cbn [tick record].
  - destruct is_full_node; cbn [negb]; rewrite !record_emit;
      (eexists _, _; split; [reflexivity|]; split; [repeat constructor | split; reflexivity]).
  - destruct (Qltb _ _); cbn [tick record];
      destruct is_full_node; cbn [negb]; rewrite !record_emit, ?emit_app;
      (eexists _, _; split; [reflexivity|]; split; [repeat constructor | split; reflexivity]).
Qed.

Lemma adjust_timestamps_shape is_full_node peer_list env st :
  exists reads stored,
    adjust_timestamps is_full_node peer_list env st = (emit reads st, Ok stored) /\
    Forall (fun ev => is_clock_read ev = true) reads /\
    map tp_host stored = map tp_host peer_list /\
    map tp_port stored = map tp_port peer_list.
Proof.
  revert st. induction peer_list as [|peer rest IH]; intros st.
  - exists [], []. rewrite emit_nil. repeat split; constructor.
  - destruct (adjust_timestamp_shape is_full_node peer env st)
      as (r1 & q & E1 & F1 & Hh & Hp).
    destruct (IH (emit r1 st)) as (r2 & qs & E2 & F2 & Hhs & Hps).
    exists (r1 ++ r2), (q :: qs). cbn [adjust_timestamps].
    unfold mbind, M_bind, bind. rewrite E1, E2, emit_app.
    split; [reflexivity|]. split; [apply Forall_app; auto|].
    cbn [map]. rewrite Hh, Hp, Hhs, Hps. split; reflexivity.
Qed.

(** X1.  Whatever the clock shows and whatever the timestamps are, the
    handler hands the address manager, in exactly one call of
    [add_to_new_table], a list with the hosts and ports it received, in the
    order it received them (so none is dropped and none is added); the
    source is the sender with a penalty of two hours for a full node, and
    [None] with no penalty otherwise.  Nothing else is touched: apart from
    that call the handler only reads the clock. *)
Theorem respond_peers_common_keeps_every_peer
    (peer_list : list TimestampedPeerInfo) (peer_src : PeerInfo) (is_full_node : bool)
    (env : Env) (st : St) :
  exists reads stored,
    fst (_respond_peers_common peer_list peer_src is_full_node env st) =
      emit (reads ++ [EvAddToNewTable stored
                        (if is_full_node then Some peer_src else None)
                        (if is_full_node then 7200 else 0)]) st /\
    Forall (fun ev => is_clock_read ev = true) reads /\
    map tp_host stored = map tp_host peer_list /\
    map tp_port stored = map tp_port peer_list /\
    length stored = length peer_list.
Proof.
  destruct (adjust_timestamps_shape is_full_node peer_list env st)
    as (reads & stored & E & F & Hh & Hp).
  exists reads, stored.
  split; [|split; [exact F | split; [exact Hh | split; [exact Hp|]]]].
  - unfold _respond_peers_common, mbind, M_bind, bind. rewrite E.
    destruct is_full_node; unfold call_, call;
      destruct (env_fail env _); cbn [fst]; rewrite record_emit, emit_app; reflexivity.
  - rewrite <- (length_map tp_host stored), Hh, length_map. reflexivity.
Qed.

(** *** The neighbour-known sets *)

Lemma known_hosts_remember (pair : string * Z) (h : string)
    (known : gmap (string * Z) (gset string)) :
  let known' := ensure_neighbour pair known in
  let known'' := if knows_host pair h known' then known' else add_host pair h known' in
  known_hosts pair known'' = known_hosts pair known ∪ {[h]} /\
  is_Some (known'' !! pair) /\
  forall other, other <> pair -> known'' !! other = known !! other.
Proof.
  unfold ensure_neighbour, knows_host, add_host, known_hosts.
  destruct (known !! pair) as [hosts|] eqn:E; cbn.
  - rewrite E. destruct (bool_decide (h ∈ hosts)) eqn:B.
    + apply bool_decide_eq_true in B. rewrite E. cbn.
      split; [set_solver|]. split; [eauto|]. reflexivity.
    + rewrite lookup_insert_eq. cbn. split; [reflexivity|]. split; [eauto|].
      intros other Hne. rewrite lookup_insert_ne by congruence. reflexivity.
  - rewrite lookup_insert_eq.
    destruct (bool_decide (h ∈ (∅ : gset string))) eqn:B.
    + apply bool_decide_eq_true in B. set_solver.
    + rewrite lookup_insert_eq. cbn. split; [reflexivity|]. split; [eauto|].
      intros other Hne. rewrite !lookup_insert_ne by congruence. reflexivity.
Qed.

Lemma known_hosts_fold (pair : string * Z) (peers : list TimestampedPeerInfo)
    (known : gmap (string * Z) (gset string)) :
  let known' :=
    fold_left
      (fun known peer =>
         let known' := ensure_neighbour pair known in
         if knows_host pair (tp_host peer) known' then known'
         else add_host pair (tp_host peer) known')
      peers known in
  known_hosts pair known' = known_hosts pair known ∪ list_to_set (map tp_host peers) /\
  (peers <> [] -> is_Some (known' !! pair)) /\
  forall other, other <> pair -> known' !! other = known !! other.
Proof.
  revert known. induction peers as [|peer rest IH]; intros known; cbn.
  - split; [set_solver|]. split; [congruence | reflexivity].
  - destruct (known_hosts_remember pair (tp_host peer) known) as (Hh & Hs & Ho).
    cbn in Hh, Hs, Ho.
    match goal with
    | |- context [fold_left ?f rest ?k] => destruct (IH k) as (Hh' & Hs' & Ho')
    end.
    cbn in Hh', Hs', Ho'.
    split; [rewrite Hh', Hh; set_solver|]. split.
    + intros _. destruct rest as [|peer' rest']; [exact Hs | apply Hs'; congruence].
    + intros other Hne. rewrite Ho' by exact Hne. apply Ho, Hne.
Qed.

(** X2.  [add_peers_neighbour] never fails and touches only the known set
    of the neighbour it is given: afterwards that set is the old one with
    the hosts of all the peers added, every other neighbour's entry is as it
    was, and with an empty list nothing changes at all, not even an empty
    entry is made. *)
Theorem add_peers_neighbour_adds_hosts
    (peers : list TimestampedPeerInfo) (neighbour_info : PeerInfo) (env : Env) (st : St) :
  let pair := (host neighbour_info, port neighbour_info) in
  let run := add_peers_neighbour peers neighbour_info env st in
  snd run = Ok tt /\
  trace (fst run) = trace st ++ [EvLockAcquire PeersLock; EvLockRelease PeersLock] /\
  known_hosts pair (neighbour_known_peers (fst run)) =
    known_hosts pair (neighbour_known_peers st) ∪ list_to_set (map tp_host peers) /\
  (forall other, other <> pair ->
     neighbour_known_peers (fst run) !! other = neighbour_known_peers st !! other) /\
  (peers = [] -> neighbour_known_peers (fst run) = neighbour_known_peers st) /\
  relay_queue (fst run) = relay_queue st.
Proof.
  intros pair run. subst run.
  unfold add_peers_neighbour, with_lock, modify. fold pair.
  cbn [fst snd trace record set_known neighbour_known_peers relay_queue].
  destruct (known_hosts_fold pair peers (neighbour_known_peers st)) as (Hh & _ & Ho).
  cbn in Hh, Ho.
  split; [reflexivity|]. split; [rewrite <- app_assoc; reflexivity|].
  split; [exact Hh|]. split; [exact Ho|]. split; [|reflexivity].
  intros ->. reflexivity.
Qed.

Lemma add_peers_neighbour_frame
    (peers : list TimestampedPeerInfo) (neighbour_info : PeerInfo) (env : Env) (st : St) :
  snd (add_peers_neighbour peers neighbour_info env st) = Ok tt /\
  known_hosts (host neighbour_info, port neighbour_info)
              (neighbour_known_peers (fst (add_peers_neighbour peers neighbour_info env st))) =
    known_hosts (host neighbour_info, port neighbour_info) (neighbour_known_peers st)
    ∪ list_to_set (map tp_host peers).
Proof.
  unfold add_peers_neighbour, with_lock, modify.
  cbn [fst snd record set_known neighbour_known_peers].
  split; [reflexivity|].
  apply (known_hosts_fold (host neighbour_info, port neighbour_info) peers).
Qed.

(** *** Answering a request for peers *)


(** *** No duplicate gossip *)

Lemma relay_to_skips (relay_peer : TimestampedPeerInfo) (connection : Connection) env st :
  knows_host (host (conn_peer_info connection), port (conn_peer_info connection))
             (tp_host relay_peer) (neighbour_known_peers st) = true ->
  relay_to relay_peer connection env st =
    (emit [EvLockAcquire PeersLock; EvLockRelease PeersLock] st, Ok tt).
Proof.
  intros Hk.
  unfold relay_to, with_lock, get, modify, mbind, M_bind, bind, ret.
  cbn [neighbour_known_peers record]. rewrite Hk.
  rewrite !record_emit, emit_app. reflexivity.
Qed.

Lemma relay_to_remembers (relay_peer : TimestampedPeerInfo) (connection : Connection)
    env st :
  knows_host (host (conn_peer_info connection), port (conn_peer_info connection))
             (tp_host relay_peer)
             (neighbour_known_peers (fst (relay_to relay_peer connection env st))) = true.
Proof.
  unfold relay_to, with_lock, get, modify, mbind, M_bind, bind, ret, call_, call.
  cbn [neighbour_known_peers record].
  set (pair := (host (conn_peer_info connection), port (conn_peer_info connection))).
  destruct (knows_host pair (tp_host relay_peer) (neighbour_known_peers st)) eqn:E.
  - cbn. exact E.
  - assert (knows_host pair (tp_host relay_peer)
              (add_host pair (tp_host relay_peer)
                 (ensure_neighbour pair (neighbour_known_peers st))) = true) as Hk.
    { rewrite add_host_ensure. unfold knows_host. rewrite lookup_insert_eq.
      apply bool_decide_eq_true. set_solver. }
    destruct (node_id connection); [destruct (env_fail env _)|]; cbn; exact Hk.
Qed.

(** X4.  Once [relay_to] has handled a peer for a neighbour, the neighbour
    counts as knowing the peer's host, whether a message was pushed, could
    not be pushed because the server raised, or was withheld for want of a
    session identifier.  Relaying the same peer again to a connection with
    the same endpoint takes the lock and does nothing else: no second
    message. *)
Theorem relay_to_never_repeats
    (relay_peer : TimestampedPeerInfo) (connection connection' : Connection)
    (env env' : Env) (st : St)
    (Hsame : conn_peer_info connection' = conn_peer_info connection) :
  let st1 := fst (relay_to relay_peer connection env st) in
  tp_host relay_peer ∈
    known_hosts (host (conn_peer_info connection), port (conn_peer_info connection))
                (neighbour_known_peers st1) /\
  relay_to relay_peer connection' env' st1 =
    (emit [EvLockAcquire PeersLock; EvLockRelease PeersLock] st1, Ok tt).
Proof.
  intros st1. pose proof (relay_to_remembers relay_peer connection env st) as Hk.
  fold st1 in Hk. split.
  - apply knows_host_known_hosts, Hk.
  - apply relay_to_skips. rewrite Hsame. exact Hk.
Qed.

(** X5.  A peer that was part of the sample sent in answer to a request is
    not relayed to the requester afterwards: the answer records the hosts of
    the sample as known to the requester, so [relay_to] skips them. *)
Theorem sample_is_not_relayed_back
    (p : PeerInfo) (relay_peer : TimestampedPeerInfo) (connection : Connection)
    (env env' : Env) (st : St)
    (Hok : env_fail env (tick st) = None)
    (Hok' : env_fail env (S (tick st)) = None)
    (Hinbound : ~ In p (map conn_peer_info (env_outbound_connections env (tick st))))
    (Hsample : In relay_peer (env_get_peers env (S (tick st))))
    (Hconn : conn_peer_info connection = p) :
  let st1 := fst (request_peers p env st) in
  relay_to relay_peer connection env' st1 =
    (emit [EvLockAcquire PeersLock; EvLockRelease PeersLock] st1, Ok tt).
Proof.
  intros st1. apply relay_to_skips. rewrite Hconn.
  apply knows_host_known_hosts. subst st1.
  unfold request_peers, try_except, mbind, M_bind, bind, call, ret.
  rewrite Hok.
  assert (existsb (fun conn => bool_decide (conn_peer_info conn = p))
            (env_outbound_connections env (tick st)) = false) as ->.
  { apply not_true_is_false. intros H. apply existsb_exists in H.
    destruct H as (c & Hc & Hp). apply bool_decide_eq_true in Hp.
    apply Hinbound, in_map_iff. exists c. split; assumption. }
  cbn [tick record]. rewrite Hok'.
  destruct (add_peers_neighbour_frame (env_get_peers env (S (tick st))) p env
              (record EvGetPeers (record EvGetOutboundConnections st)))
    as (Hres & Hhosts).
  destruct (add_peers_neighbour _ p env _) as [st2 r]. cbn [fst snd] in *. subst r.
  cbn [fst]. rewrite Hhosts. apply elem_of_union. right.
  apply elem_of_list_to_set, list_elem_of_In, in_map, Hsample.
Qed.

(** *** How many messages a relay sends *)







(** *** When the relay hashes can be computed *)

Lemma to_bytes_ok (length : nat) (z : Z) :
  (exists bytes, to_bytes length z = Ok bytes) <-> 0 <= z < 256 ^ Z.of_nat length.
Proof.
  unfold to_bytes. destruct (0 <=? z) eqn:E1; destruct (z <? 256 ^ Z.of_nat length) eqn:E2;
    cbn [andb]; try apply Z.leb_le in E1; try apply Z.leb_gt in E1;
    try apply Z.ltb_lt in E2; try apply Z.ltb_ge in E2;
    (split; [intros [bytes H]; try discriminate; lia | intros H; try lia; eauto]).
Qed.

(** X7.  The hashes for a relay can be computed exactly when there is no
    neighbour at all, or the secret key fits in 32 bytes and the day number
    in 3 bytes (so for any key drawn by [randbits(256)] and any date before
    day 2^24).  When they can, there is one entry per connection, in the
    order of the connections; when they cannot, the computation raises
    [OverflowError]. *)
Theorem relay_hashes_computable
    (self : Config) (cur_day : Z) (conns : list Connection) :
  ((exists hashes, relay_hashes self cur_day conns = Ok hashes) <->
   conns = [] \/ (0 <= key self < 2 ^ 256 /\ 0 <= cur_day < 2 ^ 24)) /\
  (forall hashes, relay_hashes self cur_day conns = Ok hashes -> map snd hashes = conns) /\
  (forall e, relay_hashes self cur_day conns = Raise e -> e = "OverflowError"%string).
Proof.
  assert (forall c, (exists h, cur_hash self cur_day c = Ok h) <->
                    (0 <= key self < 2 ^ 256 /\ 0 <= cur_day < 2 ^ 24)) as Hc.
  { intros c. unfold cur_hash.
    pose proof (to_bytes_ok 32 (key self)) as Hk.
    pose proof (to_bytes_ok 3 cur_day) as Hd.
    change (256 ^ Z.of_nat 32) with (2 ^ 256) in Hk.
    change (256 ^ Z.of_nat 3) with (2 ^ 24) in Hd.
    destruct (to_bytes 32 (key self)) as [kb|e1].
    - destruct (to_bytes 3 cur_day) as [db|e2].
      + split; [intros _; split; [apply Hk | apply Hd]; eauto | eauto].
      + split; [intros [h H]; discriminate|].
        intros [_ H]. apply Hd in H. destruct H as [b H]. discriminate.
    - split; [intros [h H]; discriminate|].
      intros [H _]. apply Hk in H. destruct H as [b H]. discriminate. }
  assert (forall c e, cur_hash self cur_day c = Raise e -> e = "OverflowError"%string) as He.
  { intros c e. unfold cur_hash, to_bytes.
    destruct (_ && _); [destruct (_ && _)|]; congruence. }
  split; [|split].
  - induction conns as [|c rest IH]; cbn [relay_hashes].
    + split; [auto | eauto].
    + specialize (Hc (conn_peer_info c)).
      destruct (cur_hash self cur_day (conn_peer_info c)) as [h|e].
      * assert (0 <= key self < 2 ^ 256 /\ 0 <= cur_day < 2 ^ 24) as Hr
          by (apply Hc; eauto).
        destruct (relay_hashes self cur_day rest) as [hs|e].
        -- split; [auto | eauto].
        -- split; [intros [hs H]; discriminate|]. intros _.
           destruct (proj2 IH (or_intror Hr)) as [hs H]. discriminate.
      * split; [intros [hs H]; discriminate|].
        intros [H|H]; [discriminate|]. apply Hc in H. destruct H as [h H]. discriminate.
  - intros hashes H. destruct (relay_hashes_ok self cur_day conns hashes H) as [-> _].
    rewrite map_map. cbn. apply map_id.
  - induction conns as [|c rest IH]; cbn [relay_hashes]; intros e; [discriminate|].
    destruct (cur_hash self cur_day (conn_peer_info c)) as [h|e1] eqn:E.
    + destruct (relay_hashes self cur_day rest) as [hs|e2]; [discriminate|].
      intros [= <-]. apply IH. reflexivity.
    + intros [= <-]. eapply He, E.
Qed.

(** *** The daily cleanup *)


(** *** Bootstrapping from the introducer *)

Lemma closed_connections_app evs1 evs2 :
  closed_connections (evs1 ++ evs2) = closed_connections evs1 ++ closed_connections evs2.
Proof. apply omap_app. Qed.

Lemma close_introducers_run (connections : list Connection) env st :
  exists evs r,
    close_introducers connections env st = (emit evs st, r) /\
    Forall (fun ev => exists c, ev = EvCloseConnection c) evs /\
    (exists rest, filter (fun c => is_introducer c = true) connections
                  = closed_connections evs ++ rest) /\
    ((forall k, env_fail env k = None) ->
       r = Ok tt /\
       closed_connections evs = filter (fun c => is_introducer c = true) connections).
Proof.
  revert st. induction connections as [|c rest IH]; intros st.
  - exists [], (Ok tt). rewrite emit_nil. split; [reflexivity|]. split; [constructor|].
    split; [exists []; reflexivity | auto].
  - cbn [close_introducers]. unfold mbind, M_bind, bind, call_, call, ret.
    destruct (bool_decide (connection_type c = INTRODUCER)) eqn:B.
    + rewrite filter_cons_True by exact B.
      destruct (env_fail env (tick st)) as [e|] eqn:Ef.
      * exists [EvCloseConnection c], (Raise e). rewrite record_emit.
        split; [reflexivity|]. split; [repeat constructor; eauto|].
        split; [eexists; reflexivity|]. intros Hok. rewrite Hok in Ef. discriminate.
      * destruct (IH (record (EvCloseConnection c) st)) as (evs & r & E & F & (tl & P) & Hok).
        rewrite E, record_emit, emit_app.
        exists ([EvCloseConnection c] ++ evs), r. split; [reflexivity|].
        split; [constructor; eauto|].
        rewrite closed_connections_app. cbn [closed_connections omap app].
        split; [exists tl; rewrite P; reflexivity|].
        intros H. destruct (Hok H) as [-> ->]. split; reflexivity.
    + rewrite filter_cons_False by (unfold is_introducer; rewrite B; discriminate).
      destruct (IH st) as (evs & r & E & F & P & Hok).
      rewrite E. exists evs, r. split; [reflexivity|]. split; [exact F|].
      split; [exact P | exact Hok].
Qed.

(** X9.  When the address manager knows no peer (or the last iteration ran
    out of candidates), the iteration of the discovery loop contacts the
    introducer with a [request_peers] on connect and then closes the
    connections of type introducer that the registry still lists: it never
    closes a connection of another type, closes them in the order listed,
    and, when no call raises, closes every one of them.  It makes no
    selection and no other dial, sleeps [min(10, peer_connect_interval)]
    seconds and clears [empty_tables]. *)
Theorem empty_tables_lead_to_the_introducer
    (self : Config) (v : ConnectVars) (env : Env) (st : St)
    (Hsize : env_fail env (tick st) = None)
    (Hempty : env_size env (tick st) = 0 \/ empty_tables v = true) :
  exists evs r,
    connect_once self v env st =
      (emit ([EvSize; EvStartClient (introducer_info self) true None] ++ evs) st, r) /\
    (forall b, selections b evs = 0) /\
    Forall (fun ev => ev = EvGetConnections \/ (exists c, ev = EvCloseConnection c) \/
                      ev = EvSleep (Z.min 10 (peer_connect_interval self))) evs /\
    (exists rest,
       filter (fun c => is_introducer c = true) (env_connections env (S (S (tick st))))
         = closed_connections evs ++ rest) /\
    ((forall k, env_fail env k = None) ->
       r = Ok (mkConnectVars (next_feeler v) false (local_peerinfo v)
                             (last_timestamp_local_info v)) /\
       closed_connections evs =
         filter (fun c => is_introducer c = true) (env_connections env (S (S (tick st)))) /\
       last evs = Some (EvSleep (Z.min 10 (peer_connect_interval self)))).
Proof.
  unfold connect_once, _introducer_client, asyncio_sleep, tell, ask, call_, call, ret,
    mbind, M_bind, bind.
  rewrite Hsize. cbn [tick record].
  assert ((env_size env (tick st) =? 0) || empty_tables v = true) as ->.
  { destruct Hempty as [-> | ->]; [reflexivity | apply orb_true_r]. }
  cbn [tick record].
  destruct (env_fail env (S (tick st))) as [e|] eqn:E1; cbn [tick record fst snd].
  { exists [], (Raise e). rewrite !record_emit, emit_app. split; [reflexivity|].
    split; [reflexivity|]. split; [constructor|]. split; [eexists; reflexivity|].
    intros Hok. rewrite Hok in E1. discriminate. }
  destruct (env_fail env (S (S (tick st)))) as [e|] eqn:E2; cbn [tick record fst snd].
  { exists [EvGetConnections], (Raise e). rewrite !record_emit, !emit_app.
    split; [reflexivity|]. split; [intros []; reflexivity|].
    split; [constructor; [auto | constructor]|]. split; [eexists; reflexivity|].
    intros Hok. rewrite Hok in E2. discriminate. }
  match goal with
  | |- context [close_introducers ?l ?e ?s] =>
      destruct (close_introducers_run l e s) as (evs & r & E & F & P & Hok)
  end.
  rewrite E.
  assert (forall b, selections b evs = 0) as Hsel.
  { clear - F. intros b. induction F as [|ev evs (c & ->) F IH]; [reflexivity|].
    unfold selections in *. rewrite filter_cons. cbn.
    rewrite decide_False by discriminate. exact IH. }
  assert (forall extra, closed_connections ([EvGetConnections] ++ evs ++ extra)
                        = closed_connections evs ++ closed_connections extra) as Hcl.
  { intros extra. rewrite !closed_connections_app. reflexivity. }
  destruct r as [[]|e]; cbn [tick record fst snd].
  - eexists ([EvGetConnections] ++ evs ++ [EvSleep (Z.min 10 (peer_connect_interval self))]), _.
    rewrite !record_emit, !emit_app. repeat rewrite <- app_assoc.
    split; [reflexivity|].
    split.
    { intros b. rewrite !selections_app, Hsel. destruct b; reflexivity. }
    split.
    { constructor; [auto|]. apply Forall_app. split; [|constructor; [auto | constructor]].
      eapply Forall_impl; [exact F|]. intros ev Hev. auto. }
    rewrite Hcl. cbn [closed_connections omap]. rewrite app_nil_r.
    split; [exact P|].
    intros H. destruct (Hok H) as [_ ->]. split; [reflexivity|]. split; [reflexivity|].
    rewrite app_assoc. apply last_snoc.
  - exists ([EvGetConnections] ++ evs), (Raise e).
    rewrite !record_emit, !emit_app. repeat rewrite <- app_assoc.
    split; [reflexivity|].
    split.
    { intros b. rewrite !selections_app, Hsel. destruct b; reflexivity. }
    split.
    { constructor; [auto|]. eapply Forall_impl; [exact F|]. intros ev Hev. auto. }
    rewrite closed_connections_app. cbn [closed_connections omap app].
    split; [exact P|].
    intros H. destruct (Hok H) as [Hr _]. discriminate.
Qed.

(** *** The groups of the outbound connections *)

Lemma group_snapshot_from (conns : list Connection) (groups0 : list (list Z)) :
  let groups :=
    fold_left
      (fun groups conn =>
         let group := get_group (conn_peer_info conn) in
         if bool_decide (group ∈ groups) then groups else groups ++ [group])
      conns groups0 in
  (NoDup groups0 -> NoDup groups) /\
  (forall g, g ∈ groups <->
             g ∈ groups0 \/ exists c, c ∈ conns /\ get_group (conn_peer_info c) = g) /\
  (length groups <= length groups0 + length conns)%nat.
Proof.
  revert groups0. induction conns as [|c rest IH]; intros groups0; cbn.
  - split; [auto|]. split; [|lia]. intros g. split; [auto|].
    intros [H | (c & Hc & _)]; [exact H|]. apply elem_of_nil in Hc. contradiction.
  - destruct (bool_decide (get_group (conn_peer_info c) ∈ groups0)) eqn:B.
    + apply bool_decide_eq_true in B.
      destruct (IH groups0) as (Hn & Hm & Hl). cbn in Hn, Hm, Hl.
      split; [exact Hn|]. split; [|lia]. intros g. rewrite Hm. split.
      * intros [H | (c' & Hc' & Hg)]; [auto|]. right. exists c'. split; [right|]; auto.
      * intros [H | (c' & Hc' & Hg)]; [auto|].
        apply elem_of_cons in Hc'. destruct Hc' as [-> | Hc'].
        -- left. rewrite <- Hg. exact B.
        -- right. eauto.
    + apply bool_decide_eq_false in B.
      destruct (IH (groups0 ++ [get_group (conn_peer_info c)])) as (Hn & Hm & Hl).
      cbn in Hn, Hm, Hl. rewrite length_app in Hl. cbn in Hl.
      split; [|split; [|lia]].
      * intros H0. apply Hn. apply NoDup_app. split; [exact H0|]. split.
        -- intros x Hx Hx'. apply list_elem_of_singleton in Hx'. subst x. auto.
        -- apply NoDup_singleton.
      * intros g. rewrite Hm, elem_of_app, list_elem_of_singleton. split.
        -- intros [[H | ->] | (c' & Hc' & Hg)]; [auto | |].
           ++ right. exists c. split; [left | reflexivity].
           ++ right. exists c'. split; [right|]; auto.
        -- intros [H | (c' & Hc' & Hg)]; [auto|].
           apply elem_of_cons in Hc'. destruct Hc' as [-> | Hc']; [auto|].
           right. eauto.
Qed.

(** X10.  The list of groups that the discovery loop computes names every
    network group of an outbound connection exactly once: it has no
    duplicates, a group is in it exactly when some outbound connection has
    that group, and it is never longer than the list of connections.  (The
    choice of [max_tries] and the lengths of the sleeps depend on its
    length.) *)
Theorem group_snapshot_lists_each_group_once (conns : list Connection) :
  NoDup (group_snapshot conns) /\
  (forall g, g ∈ group_snapshot conns <->
             exists c, c ∈ conns /\ get_group (conn_peer_info c) = g) /\
  (length (group_snapshot conns) <= length conns)%nat.
Proof.
  destruct (group_snapshot_from conns []) as (Hn & Hm & Hl). cbn in Hn, Hm, Hl.
  unfold group_snapshot. split; [apply Hn, NoDup_nil_2|]. split; [|exact Hl].
  intros g. rewrite Hm. split; [|auto].
  intros [H | H]; [apply elem_of_nil in H; contradiction | exact H].
Qed.

(** *** The schedule of feelers *)

(** X11.  [_poisson_next_send] never schedules in the past: provided
    [math.log] is not positive on (0, 1], the average interval is not
    negative and the time it is given lies between 0 and 2^51 (microseconds,
    as in its two calls), the time it returns is later than the time it is
    given, with every product and sum rounded to binary64.  It reads the
    random generator once and does nothing else. *)
Theorem poisson_next_send_is_later
    (now avg_interval_seconds : Q) (env : Env) (st : St)
    (Hlog : forall u, (0 < u)%Q -> (u <= 1)%Q -> (math_log u <= 0)%Q)
    (Havg : (0 <= avg_interval_seconds)%Q)
    (Hnow : (0 <= now)%Q) (Hnow' : (now <= inject_Z (2 ^ 51))%Q) :
  exists next,
    _poisson_next_send now avg_interval_seconds env st = (emit [EvRandom] st, Ok next) /\
    (now < next)%Q.
Proof.
  unfold _poisson_next_send, randrange, ask, ret, mbind, M_bind, bind.
  rewrite record_emit. eexists. split; [reflexivity|].
  set (r := env_random env (tick st) mod 2 ^ 48).
  destruct (poisson_uniform_range r) as [Hpos Hle1].
  { apply Z.mod_pos_bound. lia. }
  apply poisson_schedule_later; [exact Hnow | exact Hnow' | | exact Havg].
  apply Hlog; assumption.
Qed.

Lemma respond_peers_common_run
    (peer_list : list TimestampedPeerInfo) (peer_src : PeerInfo) (is_full_node : bool)
    (env : Env) (st : St) :
  (forall k, env_fail env k = None) ->
  exists evs, _respond_peers_common peer_list peer_src is_full_node env st
              = (emit evs st, Ok tt).
Proof.
  intros Hok.
  destruct (adjust_timestamps_shape is_full_node peer_list env st)
    as (reads & stored & E & _).
  unfold _respond_peers_common, mbind, M_bind, bind. rewrite E.
  destruct is_full_node; unfold call_, call; rewrite Hok, record_emit, emit_app;
    eexists; reflexivity.
Qed.

Lemma add_peers_neighbour_queue
    (peers : list TimestampedPeerInfo) (neighbour_info : PeerInfo) (env : Env) (st : St) :
  relay_queue (fst (add_peers_neighbour peers neighbour_info env st)) = relay_queue st.
Proof. reflexivity. Qed.

(** *** What enters the relay queue *)

Lemma update_connection_time_keeps_queue (p : PeerInfo) env st :
  relay_queue (fst (update_connection_time p env st)) = relay_queue st /\
  neighbour_known_peers (fst (update_connection_time p env st)) = neighbour_known_peers st.
Proof.
  unfold update_connection_time, get, modify, time_time, call_, call, raise, ret,
    mbind, M_bind, bind.
  destruct (connection_time_pretest st !! host p) as [recorded|] eqn:El;
    cbn [tick record set_pretest connection_time_pretest fst snd].
  - rewrite El. destruct (Qltb _ _); cbn [tick record set_pretest fst snd];
      [destruct (env_fail env _); cbn [tick record set_pretest fst snd]|];
      split; reflexivity.
  - rewrite lookup_insert_eq.
    destruct (Qltb _ _); cbn [tick record set_pretest fst snd];
      [destruct (env_fail env _); cbn [tick record set_pretest fst snd]|];
      split; reflexivity.
Qed.

(** X12.  Handling a message never raises.  Of all the messages, only
    [new_inbound_connection] can put something in the relay queue, and it
    does so only after [add_to_new_table] and [mark_good] have both
    returned: the queue then grows by the one item [(peer, 1)], where the
    peer carries the clock reading, truncated to seconds, as its timestamp,
    and the same peer was added to the new table with itself as source and
    no penalty.  In every other case the queue is left as it was. *)
Theorem only_new_inbound_connections_enter_the_relay_queue
    (item : string * option PeerInfo) (env : Env) (st : St) :
  let run := process_message_guarded item env st in
  snd run = Ok tt /\
  (relay_queue (fst run) = relay_queue st \/
   exists p queue,
     item = ("new_inbound_connection"%string, Some p) /\ port p <> 0 /\
     env_fail env (S (tick st)) = None /\ env_fail env (S (S (tick st))) = None /\
     relay_queue st = Some queue /\
     let peer := mkTimestampedPeerInfo (host p) (port p)
                   (uint64 (int_of_float (env_time env (tick st)))) in
     relay_queue (fst run) = Some (queue ++ [(peer, 1)]) /\
     trace (fst run) =
       trace st ++ [EvTime (env_time env (tick st));
                    EvAddToNewTable [peer] (Some p) 0; EvMarkGood p true]).
Proof.
  intros run. subst run. destruct item as [msg [p|]];
    unfold process_message_guarded, try_except, process_message, log_error, tell, ask;
    cbn [fst snd]; [|auto].
  destruct (port p =? 0) eqn:Eport; [cbn; auto|]. apply Z.eqb_neq in Eport.
  destruct (String.eqb msg "make_tried").
  { unfold call_, call, mbind, M_bind, bind.
    destruct (env_fail env (tick st)); cbn [tick record fst snd relay_queue]; [auto|].
    destruct (env_fail env (S (tick st))); cbn [tick record fst snd relay_queue]; auto. }
  destruct (String.eqb msg "mark_attempted").
  { unfold call_, call.
    destruct (env_fail env (tick st)); cbn [tick record fst snd relay_queue]; auto. }
  destruct (String.eqb msg "mark_attempted_soft").
  { unfold call_, call.
    destruct (env_fail env (tick st)); cbn [tick record fst snd relay_queue]; auto. }
  destruct (String.eqb msg "update_connection_time").
  { pose proof (update_connection_time_keeps_queue p env st) as [Hq _].
    destruct (update_connection_time p env st) as [st' [[]|e]];
      cbn [fst snd relay_queue record] in *; auto. }
  destruct (String.eqb msg "new_inbound_connection") eqn:Emsg; [|cbn; auto].
  apply String.eqb_eq in Emsg. subst msg.
  unfold new_inbound_connection, time_time, call_, call, modify, mbind, M_bind, bind.
  cbn [tick record].
  destruct (env_fail env (S (tick st))) as [e|] eqn:E1;
    cbn [tick record fst snd relay_queue]; [auto|].
  destruct (env_fail env (S (S (tick st)))) as [e|] eqn:E2;
    cbn [tick record fst snd relay_queue relay_queue_put]; [auto|].
  split; [reflexivity|].
  destruct (relay_queue st) as [queue|] eqn:Eq; [|auto].
  right. exists p, queue. repeat split; auto.
  cbn [trace record relay_queue_put]. repeat rewrite <- app_assoc. reflexivity.
Qed.

(** X13.  [FullNodePeers.respond_peers], for a list from a full node that
    the address manager accepts: the hosts of the list are recorded as
    known to the sender, and the list is put in the relay queue, with
    [num_peers] 2, exactly when it holds a single peer whose timestamp is
    later than [now - 600].  The peer is queued as it was received; a
    timestamp too far in the future, which was replaced for the address
    manager, is queued unchanged.  For a list from a wallet, neither the
    known sets nor the queue change. *)
Theorem respond_peers_queues_single_fresh_peer
    (peer_list : list TimestampedPeerInfo) (peer_src : PeerInfo)
    (env : Env) (st : St) (now : Q)
    (Hclock : forall n, env_time env n = now)
    (Hok : forall k, env_fail env k = None) :
  let full := fst (respond_peers peer_list peer_src true env st) in
  let wallet := fst (respond_peers peer_list peer_src false env st) in
  known_hosts (host peer_src, port peer_src) (neighbour_known_peers full) =
    known_hosts (host peer_src, port peer_src) (neighbour_known_peers st)
    ∪ list_to_set (map tp_host peer_list) /\
  relay_queue full =
    match peer_list, relay_queue st with
    | [peer], Some queue =>
        if Qltb (now - inject_Z 600)%Q (inject_Z (timestamp peer))
        then Some (queue ++ [(peer, 2)]) else Some queue
    | _, queue => queue
    end /\
  neighbour_known_peers wallet = neighbour_known_peers st /\
  relay_queue wallet = relay_queue st.
Proof.
  intros full wallet. subst full wallet.
  unfold respond_peers, mbind, M_bind, bind.
  destruct (respond_peers_common_run peer_list peer_src true env st Hok)
    as (evs1 & E1).
  destruct (respond_peers_common_run peer_list peer_src false env st Hok)
    as (evs2 & E2).
  rewrite E1, E2. cbn [fst snd relay_queue neighbour_known_peers emit].
  split; [|split; [|split; reflexivity]].
  - pose proof (add_peers_neighbour_frame peer_list peer_src env (emit evs1 st)) as [Hr Hh].
    destruct (add_peers_neighbour peer_list peer_src env (emit evs1 st)) as [st2 r].
    cbn [fst snd] in *. subst r. unfold get.
    cbn [neighbour_known_peers emit] in Hh.
    destruct peer_list as [|peer [|peer' rest]]; destruct (relay_queue st2);
      try exact Hh.
    unfold time_time, modify, ret. cbn [tick record].
    destruct (Qltb _ _); exact Hh.
  - pose proof (add_peers_neighbour_frame peer_list peer_src env (emit evs1 st)) as [Hr _].
    pose proof (add_peers_neighbour_queue peer_list peer_src env (emit evs1 st)) as Hq.
    destruct (add_peers_neighbour peer_list peer_src env (emit evs1 st)) as [st2 r].
    cbn [fst snd] in *. subst r. unfold get. cbn [relay_queue emit] in Hq.
    rewrite <- Hq.
    destruct peer_list as [|peer [|peer' rest]]; destruct (relay_queue st2) as [queue|] eqn:Eq;
      cbn [fst snd]; try exact Eq.
    unfold time_time, modify, ret. cbn [tick record]. rewrite Hclock.
    change (60 * 10) with 600.
    destruct (Qltb _ _); cbn [fst relay_queue relay_queue_put record]; rewrite ?Eq; reflexivity.
Qed.

(** *** The candidate that the inner loop settles on *)

Section Accepted.
Variables (self : Config) (is_feeler : bool) (groups : list (list Z))
          (connected : list PeerInfo) (now : Q) (max_tries : Z).

Lemma consider_accepts v tries' hc info env st st' ctl v' :
  consider is_feeler groups connected now v tries' hc info env st = (st', Ok (ctl, v')) ->
  accepted is_feeler groups connected v'.
Proof.
  unfold consider, accepted, time_time, call, ret, mbind, M_bind, bind.
  destruct (negb is_feeler && bool_decide (get_group (peer_info info) ∈ groups)) eqn:C1.
  { intros [= <- <- <-]. discriminate. }
  destruct (bool_decide (peer_info info ∈ connected)) eqn:C2.
  { intros [= <- <- <-]. discriminate. }
  destruct (Qltb (now - inject_Z (last_try info)) (inject_Z 3600) && (tries' <? 30)).
  { intros [= <- <- <-]. discriminate. }
  apply bool_decide_eq_false in C2.
  assert (is_feeler = false -> get_group (peer_info info) ∉ groups) as Hgroup.
  { intros ->. cbn in C1. apply bool_decide_eq_false in C1. exact C1. }
  cbn [tick record].
  destruct (Qltb (inject_Z 1800) _ || bool_decide (tv_local_peerinfo v = None));
    cbn [tick record].
  - destruct (env_fail env (S (tick st))); cbn [tick record fst snd]; [discriminate|].
    destruct (bool_decide (env_local_peerinfo env (S (tick st)) = Some (peer_info info)))
      eqn:C4; intros [= <- <- <-]; cbn; [discriminate|].
    apply bool_decide_eq_false in C4. intros _. eexists. repeat split; eauto.
  - cbn [fst snd].
    destruct (bool_decide (tv_local_peerinfo v = Some (peer_info info))) eqn:C4;
      intros [= <- <- <-]; cbn; [discriminate|].
    apply bool_decide_eq_false in C4. intros _. eexists. repeat split; eauto.
Qed.

Lemma try_once_accepts v env st st' ctl v' :
  try_once self is_feeler groups connected now max_tries v env st = (st', Ok (ctl, v')) ->
  accepted is_feeler groups connected v' /\ (ctl = Break -> got_peer v' = false).
Proof.
  unfold try_once, asyncio_sleep, tell, ask, call, ret, mbind, M_bind, bind.
  cbn [tick record].
  destruct (max_tries <? tries v + 1); cbn [tick record].
  { intros [= <- <- <-]. split; [intros H; discriminate | reflexivity]. }
  destruct (env_fail env (S (tick st))); cbn [tick record]; [discriminate|].
  destruct (env_select_tried_collision env (S (tick st))) as [info|];
    cbn [tick record fst snd].
  - intros H. split; [eapply consider_accepts, H|].
    destruct (consider_run is_feeler groups connected now v (tries v + 1) true info env
                (record EvSelectTriedCollision (record (EvSleep
                   (Z.min (Z.min 15 (peer_connect_interval self))
                          (1 + Z.of_nat (length groups) * 3))) st)))
      as (evs & r & E & _ & Hr & _).
    rewrite E in H. injection H as _ Hr'. destruct (Hr _ _ Hr') as (-> & _).
    discriminate.
  - destruct (env_fail env (S (S (tick st)))); cbn [tick record fst snd]; [discriminate|].
    destruct (env_select_peer env (S (S (tick st)))) as [info|]; cbn [tick record fst snd].
    + intros H. split; [eapply consider_accepts, H|].
      destruct (consider_run is_feeler groups connected now v (tries v + 1)
                  (has_collision v) info env
                  (record (EvSelectPeer is_feeler) (record EvSelectTriedCollision
                     (record (EvSleep
                        (Z.min (Z.min 15 (peer_connect_interval self))
                               (1 + Z.of_nat (length groups) * 3))) st))))
        as (evs & r & E & _ & Hr & _).
      rewrite E in H. injection H as _ Hr'. destruct (Hr _ _ Hr') as (-> & _).
      discriminate.
    + intros [= <- <- <-]. split; [intros H; discriminate | reflexivity].
Qed.

Lemma pick_peer_accepts fuel v env st st' v' :
  accepted is_feeler groups connected v ->
  pick_peer self is_feeler groups connected now max_tries fuel v env st
    = (st', Ok (Some v')) ->
  accepted is_feeler groups connected v'.
Proof.
  revert v st. induction fuel as [|fuel IH]; intros v st Hv; cbn [pick_peer].
  - discriminate.
  - unfold is_closed, ret, mbind, M_bind, bind.
    destruct (got_peer v || env_closed env (tick st)).
    { intros [= <- <-]. exact Hv. }
    destruct (try_once self is_feeler groups connected now max_tries v env st)
      as [st1 [[ctl v1]|e]] eqn:E; [|discriminate].
    destruct (try_once_accepts v env st st1 ctl v1 E) as [Hacc _].
    cbn [fst snd]. destruct ctl.
    + intros [= <- <-]. exact Hacc.
    + apply IH, Hacc.
Qed.

End Accepted.

(** X14.  When the inner loop of a discovery iteration ends with
    [got_peer] set, [addr] holds a candidate that is not among the connected
    peers, is not the local endpoint as last fetched, and, unless the
    iteration is a feeler, belongs to none of the groups of the outbound
    connections.  (When the loop ends without [got_peer], [addr] may still
    hold a candidate that was turned down.) *)
Theorem accepted_candidate_is_new
    (self : Config) (is_feeler : bool) (groups : list (list Z))
    (connected : list PeerInfo) (now : Q) (max_tries : Z) (fuel : nat)
    (v : TryVars) (env : Env) (st st' : St) (v' : TryVars)
    (Hstart : got_peer v = false)
    (Hrun : pick_peer self is_feeler groups connected now max_tries fuel v env st
            = (st', Ok (Some v')))
    (Hgot : got_peer v' = true) :
  exists a,
    addr v' = Some a /\
    (a ∉ connected) /\
    (is_feeler = false -> get_group a ∉ groups) /\
    tv_local_peerinfo v' <> Some a.
Proof.
  apply (pick_peer_accepts self is_feeler groups connected now max_tries
           fuel v env st st' v'); [|exact Hrun | exact Hgot].
  intros H. rewrite Hstart in H. discriminate.
Qed.

(** *** The interactions of an ordinary iteration *)

Lemma dials_app evs1 evs2 : dials (evs1 ++ evs2) = dials evs1 ++ dials evs2.
Proof. apply omap_app. Qed.

Section Iteration.
Variables (self : Config) (is_feeler : bool) (groups : list (list Z))
          (connected : list PeerInfo) (now : Q) (max_tries : Z).

Lemma consider_events v tries' hc info env st :
  exists evs r,
    consider is_feeler groups connected now v tries' hc info env st = (emit evs st, r) /\
    Forall (iteration_event is_feeler) evs /\ dials evs = [].
Proof.
  unfold consider, time_time, call, ret, mbind, M_bind, bind.
  destruct (negb is_feeler && _).
  { eexists [], _. rewrite emit_nil. repeat split; constructor. }
  destruct (bool_decide (peer_info info ∈ connected)).
  { eexists [], _. rewrite emit_nil. repeat split; constructor. }
  destruct (Qltb (now - inject_Z (last_try info)) (inject_Z 3600) && (tries' <? 30)).
  { eexists [], _. rewrite emit_nil. repeat split; constructor. }
  cbn [tick record].
  destruct (Qltb (inject_Z 1800) _ || bool_decide (tv_local_peerinfo v = None));
    cbn [tick record].
  - destruct (env_fail env (S (tick st))); cbn [tick record fst snd].
    + eexists [_; _], _. rewrite !record_emit, !emit_app.
      split; [reflexivity|]. split; [repeat constructor | reflexivity].
    + destruct (bool_decide _);
        (eexists [_; _; _], _; rewrite !record_emit, !emit_app;
         split; [reflexivity|]; split; [repeat constructor | reflexivity]).
  - cbn [fst snd]. destruct (bool_decide _);
      (eexists [_], _; rewrite !record_emit;
       split; [reflexivity|]; split; [repeat constructor | reflexivity]).
Qed.

Lemma try_once_events v env st :
  exists evs r,
    try_once self is_feeler groups connected now max_tries v env st = (emit evs st, r) /\
    Forall (iteration_event is_feeler) evs /\ dials evs = [].
Proof.
  unfold try_once, asyncio_sleep, tell, ask, call, ret, mbind, M_bind, bind.
  cbn [tick record].
  destruct (max_tries <? tries v + 1); cbn [tick record].
  { eexists [_], _. rewrite record_emit.
    split; [reflexivity|]. split; [repeat constructor | reflexivity]. }
  destruct (env_fail env (S (tick st))); cbn [tick record].
  { eexists [_; _], _. rewrite !record_emit, emit_app.
    split; [reflexivity|]. split; [repeat constructor | reflexivity]. }
  destruct (env_select_tried_collision env (S (tick st))) as [info|];
    cbn [tick record fst snd].
  - match goal with
    | |- context [consider _ _ _ _ ?v0 ?t ?h ?i ?e ?s] =>
        destruct (consider_events v0 t h i e s) as (evs & r & E & F & D)
    end.
    rewrite E, !record_emit, !emit_app. eexists _, _. split; [reflexivity|].
    split; [repeat (constructor; [exact I|]); exact F|].
    rewrite !dials_app, D. reflexivity.
  - destruct (env_fail env (S (S (tick st)))); cbn [tick record fst snd].
    { eexists [_; _; _], _. rewrite !record_emit, !emit_app.
      split; [reflexivity|]. split; [|reflexivity].
      repeat (constructor; [first [exact I | reflexivity]|]). constructor. }
    destruct (env_select_peer env (S (S (tick st)))) as [info|]; cbn [tick record fst snd].
    + match goal with
      | |- context [consider _ _ _ _ ?v0 ?t ?h ?i ?e ?s] =>
          destruct (consider_events v0 t h i e s) as (evs & r & E & F & D)
      end.
      rewrite E, !record_emit, !emit_app. eexists _, _. split; [reflexivity|].
      split; [repeat (constructor; [first [exact I | reflexivity]|]); exact F|].
      rewrite !dials_app, D. reflexivity.
    + eexists [_; _; _], _. rewrite !record_emit, !emit_app.
      split; [reflexivity|]. split; [|reflexivity].
      repeat (constructor; [first [exact I | reflexivity]|]). constructor.
Qed.

Lemma pick_peer_events fuel v env st :
  exists evs r,
    pick_peer self is_feeler groups connected now max_tries fuel v env st
      = (emit evs st, r) /\
    Forall (iteration_event is_feeler) evs /\ dials evs = [].
Proof.
  revert v st. induction fuel as [|fuel IH]; intros v st; cbn [pick_peer].
  - eexists [], _. rewrite emit_nil. repeat split; constructor.
  - unfold is_closed, ret, mbind, M_bind, bind.
    destruct (got_peer v || env_closed env (tick st)).
    { eexists [], _. rewrite emit_nil. repeat split; constructor. }
    destruct (try_once_events v env st) as (evs1 & r1 & E1 & F1 & D1).
    rewrite E1. destruct r1 as [[ctl v']|e]; cbn [fst snd].
    + destruct ctl.
      * eexists evs1, _. repeat split; assumption.
      * destruct (IH v' (emit evs1 st)) as (evs2 & r2 & E2 & F2 & D2).
        rewrite E2, emit_app. eexists _, _. split; [reflexivity|].
        split; [apply Forall_app; auto|]. rewrite dials_app, D1, D2. reflexivity.
    + eexists evs1, _. repeat split; assumption.
Qed.

End Iteration.

Lemma feeler_decision_events (self : Config) (scheduled : Q) env st :
  exists evs r,
    feeler_decision self scheduled env st = (emit evs st, r) /\
    (forall b, Forall (iteration_event b) evs) /\ dials evs = [].
Proof.
  unfold feeler_decision, _num_needed_peers, _poisson_next_send, randrange, ask, call,
    time_time, ret, mbind, M_bind, bind.
  destruct (env_fail env (tick st)); cbn [tick record].
  { eexists [_], _. rewrite record_emit. split; [reflexivity|].
    split; [intros b; repeat constructor | reflexivity]. }
  destruct (_ =? 0); cbn [tick record].
  2:{ eexists [_], _. rewrite record_emit. split; [reflexivity|].
      split; [intros b; repeat constructor | reflexivity]. }
  destruct (Qltb scheduled _); cbn [tick record].
  - eexists [_; _; _; _], _. rewrite !record_emit, !emit_app. split; [reflexivity|].
    split; [intros b; repeat constructor | reflexivity].
  - eexists [_; _], _. rewrite !record_emit, !emit_app. split; [reflexivity|].
    split; [intros b; repeat constructor | reflexivity].
Qed.

(** X15.  An iteration of the discovery loop that finds the address
    manager non-empty dials at most one peer and closes no connection.  When
    the feeler decision of the iteration is [is_feeler], every call of
    [select_peer] in it asks with [new_only = is_feeler], and the dial, if
    there is one, passes no callback; in a feeler iteration the dial always
    asks to disconnect after the handshake. *)
Theorem ordinary_iteration_dials_at_most_once
    (self : Config) (v : ConnectVars) (env : Env) (st : St)
    (H0 : env_fail env (tick st) = None)
    (H1 : env_fail env (S (tick st)) = None)
    (H2 : env_fail env (S (S (tick st))) = None)
    (Hsize : env_size env (tick st) <> 0)
    (Hempty : empty_tables v = false) :
  exists evs r,
    connect_once self v env st = (emit evs st, r) /\
    (length (dials evs) <= 1)%nat /\
    forall is_feeler scheduled' st4,
      feeler_decision self (next_feeler v) env
        (emit [EvSize; EvGetFullNodePeerinfos; EvGetOutboundConnections] st)
        = (st4, Ok (is_feeler, scheduled')) ->
      Forall (iteration_event is_feeler) evs.
Proof.
  unfold connect_once, call_, call, mbind, M_bind, bind.
  rewrite H0. apply Z.eqb_neq in Hsize. rewrite Hsize, Hempty. cbn [orb tick record].
  rewrite H1. cbn [tick record]. rewrite H2. cbn [tick record].
  rewrite !record_emit, !emit_app. cbn [app].
  destruct (feeler_decision_events self (next_feeler v) env
              (emit [EvSize; EvGetFullNodePeerinfos; EvGetOutboundConnections] st))
    as (evsf & rf & Ef & Ff & Df).
  rewrite Ef.
  destruct rf as [[f nf]|e]; cbn [fst snd].
  2:{ eexists _, _. rewrite emit_app. split; [reflexivity|].
      rewrite dials_app, Df. split; [cbn; lia|]. intros ? ? ? Hf. discriminate. }
  unfold time_time, _num_needed_peers, call, tell, asyncio_sleep, ask, ret, raise,
    mbind, M_bind, bind.
  match goal with
  | |- context [match env_fail env ?t with _ => _ end] =>
      destruct (env_fail env t) as [e|]
  end; cbn [tick record fst snd].
  { rewrite !record_emit, !emit_app. eexists _, _. split; [reflexivity|].
    rewrite !dials_app, Df. split; [cbn; lia|]. intros ? ? ? Hf. injection Hf as _ <- _.
    repeat (apply Forall_app; split); auto; repeat constructor. }
  match goal with
  | |- context [pick_peer ?a ?b ?c ?d ?n ?m ?fu ?v0 ?e ?s] =>
      destruct (pick_peer_events a b c d n m fu v0 e s) as (evsp & rp & Ep & Fp & Dp)
  end.
  rewrite Ep. clear Ep.
  destruct rp as [[tv|]|e]; cbn [tick record fst snd].
  3:{ rewrite !record_emit, !emit_app. eexists _, _. split; [reflexivity|].
      rewrite !dials_app, Df, Dp. split; [cbn; lia|]. intros ? ? ? Hf.
      injection Hf as _ <- _.
      repeat (apply Forall_app; split); auto; repeat constructor. }
  2:{ rewrite !record_emit, !emit_app. eexists _, _. split; [reflexivity|].
      rewrite !dials_app, Df, Dp. split; [cbn; lia|]. intros ? ? ? Hf.
      injection Hf as _ <- _.
      repeat (apply Forall_app; split); auto; repeat constructor. }
  match goal with
  | |- context [match env_fail env ?t with _ => _ end] =>
      destruct (env_fail env t) as [e|]
  end; cbn [tick record fst snd].
  { rewrite !record_emit, !emit_app. eexists _, _. split; [reflexivity|].
    rewrite !dials_app, Df, Dp. split; [cbn; lia|]. intros ? ? ? Hf.
    injection Hf as _ <- _.
    repeat (apply Forall_app; split); auto; repeat constructor. }
  match goal with
  | |- context [match env_fail env ?t with _ => _ end] =>
      destruct (env_fail env t) as [e|]
  end; cbn [tick record fst snd].
  { rewrite !record_emit, !emit_app. eexists _, _. split; [reflexivity|].
    rewrite !dials_app, Df, Dp. split; [cbn; lia|]. intros ? ? ? Hf.
    injection Hf as _ <- _.
    repeat (apply Forall_app; split); auto; repeat constructor. }
  destruct (addr tv) as [target|]; [destruct (_ || _ || f)|];
    unfold tell, ask, ret; cbn [tick record fst snd];
    rewrite !record_emit, !emit_app; (eexists _, _; split; [reflexivity|]);
    rewrite !dials_app, Df, Dp;
    (split; [cbn; lia|]); intros ? ? ? Hf; injection Hf as _ <- _;
    repeat (apply Forall_app; split); auto; repeat constructor.
  eexists. split; [reflexivity|]. intros ->.
  match goal with |- (if ?c then _ else _) = _ => destruct c end; reflexivity.
Qed.

(** *** Loops that outlive an exception *)

(** X17.  The three loops whose body sits in a [try] outlive whatever is
    raised inside them: for every behaviour of the environment, also one in
    which calls raise, [_process_messages], [_address_relay] and
    [_periodically_self_advertise] end an observation without an exception,
    either still running or stopped because the node was closed. *)
Theorem guarded_loops_never_raise
    (self : Config) (messages : list (string * option PeerInfo))
    (relayed : list (TimestampedPeerInfo * Z)) (fuel : nat) (env : Env) (st : St) :
  (exists st' r, _process_messages messages env st = (st', Ok r)) /\
  (exists st' r, _address_relay self relayed env st = (st', Ok r)) /\
  (exists st' r, _periodically_self_advertise fuel env st = (st', Ok r)).
Proof.
  split; [|split].
  - apply process_messages_never_raises.
  - apply address_relay_never_raises.
  - apply self_advertise_never_raises.
Qed.

End MoreProperties.

(** * Further runs on the concrete world *)

(** X4 on two connections to [peer_b] with different session identifiers:
    the second gets no message for the host the first was told about. *)
Lemma relay_to_never_repeats_witness :
  conn_peer_info (mkConnection peer_b (Some 23) FULL_NODE) = conn_peer_info conn_b /\
  relay_to relayed_peer (mkConnection peer_b (Some 23) FULL_NODE) quiet_env
           (fst (relay_to relayed_peer conn_b quiet_env fresh_state)) =
    (emit [EvLockAcquire PeersLock; EvLockRelease PeersLock]
          (fst (relay_to relayed_peer conn_b quiet_env fresh_state)), Ok tt).
Proof.
  split; [reflexivity|].
  apply (proj2 (relay_to_never_repeats relayed_peer conn_b
                  (mkConnection peer_b (Some 23) FULL_NODE)
                  quiet_env quiet_env fresh_state eq_refl)).
Defined.

(** X5 on a request from [peer_b], which is answered with [gossip]: the
    first peer of the sample is not relayed to [peer_b] afterwards. *)
Lemma sample_is_not_relayed_back_witness :
  let env := with_get_peers gossip (with_outbound [conn_a] quiet_env) in
  ~ In peer_b (map conn_peer_info (env_outbound_connections env (tick fresh_state))) /\
  In relayed_peer (env_get_peers env (S (tick fresh_state))) /\
  relay_to relayed_peer conn_b quiet_env (fst (request_peers peer_b env fresh_state)) =
    (emit [EvLockAcquire PeersLock; EvLockRelease PeersLock]
          (fst (request_peers peer_b env fresh_state)), Ok tt).
Proof.
  intros env.
  assert (~ In peer_b (map conn_peer_info (env_outbound_connections env (tick fresh_state))))
    as Hinbound.
  { cbn. intros [H|[]]. discriminate H. }
  assert (In relayed_peer (env_get_peers env (S (tick fresh_state)))) as Hsample.
  { left. reflexivity. }
  split; [exact Hinbound|]. split; [exact Hsample|].
  apply (sample_is_not_relayed_back peer_b relayed_peer conn_b env quiet_env fresh_state
           eq_refl eq_refl Hinbound Hsample eq_refl).
Defined.

(** X9 on a node whose last iteration ran out of candidates. *)
Lemma empty_tables_lead_to_the_introducer_witness :
  env_fail quiet_env (tick fresh_state) = None /\
  empty_tables (mkConnectVars 0%Q true None 0) = true /\
  exists evs r,
    connect_once toy_self (mkConnectVars 0%Q true None 0) quiet_env fresh_state =
      (emit ([EvSize; EvStartClient (introducer_info toy_self) true None] ++ evs)
            fresh_state, r) /\
    (forall b, selections b evs = 0).
Proof.
  split; [reflexivity|]. split; [reflexivity|].
  destruct (empty_tables_lead_to_the_introducer (Ext := toy_externals) toy_self
              (mkConnectVars 0%Q true None 0) quiet_env fresh_state
              eq_refl (or_intror eq_refl))
    as (evs & r & Hrun & Hsel & _).
  exists evs, r. split; [exact Hrun | exact Hsel].
Defined.

(** X11 on the draw 2^47 with [u - 1] for the logarithm, the feeler interval
    of 240 seconds and the clock of the quiet world in microseconds. *)
Lemma poisson_next_send_is_later_witness :
  let env := with_random (fun _ => 2 ^ 47) quiet_env in
  let now := microseconds (inject_Z 1700000000) in
  (forall u, (0 < u)%Q -> (u <= 1)%Q -> (math_log (Externals := toy_externals) u <= 0)%Q) /\
  (0 <= inject_Z 240)%Q /\ (0 <= now)%Q /\ (now <= inject_Z (2 ^ 51))%Q /\
  exists next,
    _poisson_next_send (Ext := toy_externals) now (inject_Z 240) env fresh_state
      = (emit [EvRandom] fresh_state, Ok next) /\
    (now < next)%Q.
Proof.
  intros env now.
  assert (forall u, (0 < u)%Q -> (u <= 1)%Q ->
            (math_log (Externals := toy_externals) u <= 0)%Q) as Hlog.
  { intros u _ Hu. cbn. lra. }
  assert (0 <= inject_Z 240)%Q as Havg by (unfold inject_Z; lra).
  assert (0 <= now)%Q as H1 by (apply Qle_bool_iff; vm_compute; reflexivity).
  assert (now <= inject_Z (2 ^ 51))%Q as H2 by (apply Qle_bool_iff; vm_compute; reflexivity).
  split; [exact Hlog|]. split; [exact Havg|]. split; [exact H1|]. split; [exact H2|].
  apply (poisson_next_send_is_later (Ext := toy_externals) now (inject_Z 240)
           env fresh_state Hlog Havg H1 H2).
Defined.

(** X13 on a single peer seen a hundred seconds ago, sent by [peer_a]. *)
Lemma respond_peers_queues_single_fresh_peer_witness :
  (forall n, env_time quiet_env n = inject_Z 1700000000) /\
  (forall k, env_fail quiet_env k = None) /\
  relay_queue (fst (respond_peers [mkTimestampedPeerInfo "10.5.0.1" 8444 1699999900]
                      peer_a true quiet_env fresh_state)) =
    Some [(mkTimestampedPeerInfo "10.5.0.1" 8444 1699999900, 2)].
Proof.
  split; [reflexivity|]. split; [reflexivity|].
  exact (proj1 (proj2 (respond_peers_queues_single_fresh_peer (Ext := toy_externals)
                         [mkTimestampedPeerInfo "10.5.0.1" 8444 1699999900]
                         peer_a quiet_env fresh_state (inject_Z 1700000000)
                         (fun _ => eq_refl) (fun _ => eq_refl)))).
Defined.

(** X14 on a node without connections to which the address manager offers
    [peer_b]. *)
Lemma accepted_candidate_is_new_witness :
  let env := with_select_peer (fun _ => Some (mkExtendedPeerInfo peer_b 0)) quiet_env in
  exists st' v',
    pick_peer toy_self false [] [] (inject_Z 1700000000) 10 11 first_try env fresh_state
      = (st', Ok (Some v')) /\
    got_peer v' = true /\
    addr v' = Some peer_b /\
    (peer_b ∉ ([] : list PeerInfo)) /\
    tv_local_peerinfo v' <> Some peer_b.
Proof.
  intros env.
  set (run := pick_peer toy_self false [] [] (inject_Z 1700000000) 10 11 first_try env
                fresh_state).
  exists (fst run),
         (match snd run with Ok (Some v') => v' | _ => first_try end).
  split; [reflexivity|]. split; [reflexivity|].
  destruct (accepted_candidate_is_new (Ext := toy_externals) toy_self false [] []
              (inject_Z 1700000000) 10 11 first_try env fresh_state (fst run)
              (match snd run with Ok (Some v') => v' | _ => first_try end)
              eq_refl eq_refl eq_refl)
    as (a & Ha & Hnew & _ & Hlocal).
  assert (a = peer_b) as -> by (injection Ha as <-; reflexivity).
  split; [reflexivity|]. split; [exact Hnew | exact Hlocal].
Defined.

(** X15 on the same node: the iteration dials [peer_b] and nothing else. *)
Lemma ordinary_iteration_dials_at_most_once_witness :
  let env := with_select_peer (fun _ => Some (mkExtendedPeerInfo peer_b 0)) quiet_env in
  env_fail env 0 = None /\ env_fail env 1 = None /\ env_fail env 2 = None /\
  env_size env 0 <> 0 /\
  exists evs r,
    connect_once toy_self (mkConnectVars 0%Q false None 0) env fresh_state
      = (emit evs fresh_state, r) /\
    (length (dials evs) <= 1)%nat.
Proof.
  intros env.
  assert (env_size env (tick fresh_state) <> 0) as Hsize by (cbn; discriminate).
  split; [reflexivity|]. split; [reflexivity|]. split; [reflexivity|].
  split; [exact Hsize|].
  destruct (ordinary_iteration_dials_at_most_once (Ext := toy_externals) toy_self
              (mkConnectVars 0%Q false None 0) env fresh_state
              eq_refl eq_refl eq_refl Hsize eq_refl)
    as (evs & r & Hrun & Hdials & _).
  exists evs, r. split; [exact Hrun | exact Hdials].
Defined.

(** *** Port mapping *)

(** X16.  [upnp_remap_port] never raises, whichever call of the library
    fails, and always starts by logging the attempt.  It logs exactly one
    outcome, last: success when every call returned, the warning when some
    call raised.  A mapping it asks for is always for TCP, with the given
    port as both the external and the internal port, for the local address
    the library reports and with the description "chia".  If the mapping was
    added and only the query for the external address raises, the warning is
    logged although the port is mapped. *)
Theorem upnp_remap_port_never_raises (lib : Upnp.Library) (port : Z) :
  let run := Upnp.upnp_remap_port lib port in
  let all_return :=
    negb (Upnp.new_raises lib || Upnp.discover_raises lib || Upnp.selectigd_raises lib
          || Upnp.addportmapping_raises lib || Upnp.externalipaddress_raises lib) in
  let mapping := Upnp.AddPortMapping port "TCP" (Upnp.lanaddr lib) port "chia" "" in
  snd run = Ok tt /\
  head (fst run) = Some (Upnp.LogAttempting port) /\
  last (fst run) =
    Some (if all_return
          then Upnp.LogOpened port (Upnp.lanaddr lib) (Upnp.externalipaddress lib)
          else Upnp.LogFailed) /\
  (forall external_port protocol internal_host internal_port description remote_host,
     In (Upnp.AddPortMapping external_port protocol internal_host internal_port
                             description remote_host) (fst run) ->
     Upnp.AddPortMapping external_port protocol internal_host internal_port
                         description remote_host = mapping) /\
  (In mapping (fst run) <->
   Upnp.new_raises lib = false /\ Upnp.discover_raises lib = false /\
   Upnp.selectigd_raises lib = false) /\
  (Upnp.new_raises lib = false -> Upnp.discover_raises lib = false ->
   Upnp.selectigd_raises lib = false -> Upnp.addportmapping_raises lib = false ->
   Upnp.externalipaddress_raises lib = true ->
   In mapping (fst run) /\ last (fst run) = Some Upnp.LogFailed).
Proof.
  destruct lib as [n d s a e la ea]. cbn [Upnp.new_raises Upnp.discover_raises
    Upnp.selectigd_raises Upnp.addportmapping_raises Upnp.externalipaddress_raises
    Upnp.lanaddr Upnp.externalipaddress].
  destruct n, d, s, a, e; cbn;
    (split; [reflexivity|]); (split; [reflexivity|]); (split; [reflexivity|]);
    (split; [intros ? ? ? ? ? ? H; intuition (try discriminate; try (symmetry; assumption))|]);
    (split; [split; [intros H; intuition (try discriminate)
                    | intros (? & ? & ?); try discriminate; auto 10]|]);
    intros; try discriminate; split; [auto 10 | reflexivity].
Qed.
